(** * PixelGameDev: sprite-sheet indexing and the entity / game-loop skeleton

    A shallow embedding of [src/public/js/builder.js], of the sibling sprite
    manager inlined in [src/views/game-dev-hub.ejs], and of
    [src/public/js/build.js], followed by the properties of the
    specification that were checked against them.

    Conventions of the embedding.
    - A JavaScript number is an exact rational ([Q]).  Every constant of the
      program (0, 0.5, 3, 5, 10, 16, 50, 100) and every pixel size is a
      dyadic rational, so the sums and comparisons below are the ones the
      program performs.
    - A method that can throw lives in the monad [M]: a state transformer
      whose result is a value or a thrown error.  What was written to the
      state before the throw stays written, as in JavaScript.
    - A call of a method that no class of the receiver's prototype chain
      declares is a [TypeError], as in JavaScript. *)

From Stdlib Require Import QArith Qround Qminmax Lqa ZArith Lia Bool.
From stdpp Require Import gmap strings list.

(** ** JavaScript numbers, comparisons and errors *)

Module Js.

(** [a < b] on numbers. *)
Definition lt (a b : Q) : bool := negb (Qle_bool b a).

(** [a > b]: ECMAScript evaluates it as [b < a]. *)
Definition gt (a b : Q) : bool := lt b a.

(** [Math.floor]. *)
Definition floor (q : Q) : Z := Qfloor q.

(** Truncation towards zero, the integer quotient used by [%]. *)
Definition trunc (q : Q) : Z :=
  if Qle_bool 0 q then Qfloor q else Qceiling q.

(** [a % b] on numbers, for [b <> 0]: the remainder has the sign of the
    dividend, [a - b * trunc (a / b)]. *)
Definition rem (a b : Q) : Q := (a - b * inject_Z (trunc (a / b)))%Q.

Inductive Error : Type :=
| TypeError (what : string).

(** The names every ordinary object inherits from [Object.prototype];
    each of them is bound to a function, except [__proto__], which is
    bound to the prototype object itself.  All of them are truthy. *)
Definition object_prototype_names : list string :=
  [ "constructor"; "__proto__"; "hasOwnProperty"; "isPrototypeOf";
    "propertyIsEnumerable"; "toString"; "toLocaleString"; "valueOf";
    "__defineGetter__"; "__defineSetter__"; "__lookupGetter__";
    "__lookupSetter__" ]%string.

Definition inherited (k : string) : bool :=
  bool_decide (k ∈ object_prototype_names).

(** How a call ends: with a value, or with a thrown error. *)
Inductive Completion (A : Type) : Type :=
| Normal (a : A)
| Throw (e : Error).
#[global] Arguments Normal {A} a.
#[global] Arguments Throw {A} e.

End Js.

Export Js (Completion, Normal, Throw).

(** ** builder.js: the sprite manager *)

Module Sprites.

(** [{ index: i, x: x, y: y }]. *)
Record Item : Type := mkItem { index : Z; x : Q; y : Q }.

(** The object [addSprite] stores under a type.  Tile sizes are pixel
    counts, positive integers. *)
Record SpriteInfo : Type := mkSpriteInfo {
  imagePath : string;
  spriteWidth : positive;
  spriteHeight : positive;
  items : list Item
}.

Definition set_items (info : SpriteInfo) (l : list Item) : SpriteInfo :=
  {| imagePath := imagePath info; spriteWidth := spriteWidth info;
     spriteHeight := spriteHeight info; items := l |}.

(** The loop of the [img.onload] callback of [_createItems]:
    [for (let i = 0; i < totalItems; i++) items.push(...)], with
    [cols] standing for the quotient [img.width / spriteWidth] that the
    body recomputes.  [None]: the fuel ran out before the test failed. *)
Fixpoint push_items (fuel : nat) (i : Z) (totalItems cols : Q)
    (spriteWidth spriteHeight : positive) (items : list Item)
  : option (list Item) :=
  if Js.lt (inject_Z i) totalItems then
    match fuel with
    | O => None
    | S fuel' =>
        let x := (Js.rem (inject_Z i) cols * inject_Z (Zpos spriteWidth))%Q in
        let y := (inject_Z (Js.floor (inject_Z i / cols))
                  * inject_Z (Zpos spriteHeight))%Q in
        push_items fuel' (i + 1) totalItems cols spriteWidth spriteHeight
          (items ++ [mkItem i x y])
    end
  else Some items.

(** [totalItems = (img.width / spriteWidth) * (img.height / spriteHeight)],
    for an image of [width] by [height] pixels. *)
Definition totalItems (width height : N) (spriteWidth spriteHeight : positive) : Q :=
  ((inject_Z (Z.of_N width) / inject_Z (Zpos spriteWidth))
   * (inject_Z (Z.of_N height) / inject_Z (Zpos spriteHeight)))%Q.

(** The [img.onload] callback of [_createItems], run on the array
    [items] once the image of [width] by [height] pixels has loaded. *)
Definition onload (width height : N) (spriteWidth spriteHeight : positive)
    (items : list Item) : list Item :=
  let total := totalItems width height spriteWidth spriteHeight in
  match push_items (Z.to_nat (Qceiling total)) 0 total
          (inject_Z (Z.of_N width) / inject_Z (Zpos spriteWidth))%Q
          spriteWidth spriteHeight items with
  | Some l => l
  | None => items
  end.

(** [_createItems] returns the array before the image loads. *)
Definition _createItems : list Item := [].

(** [this.sprites]: an ordinary object.  [own] holds its own properties;
    [proto] is [Some info] once [sprites["__proto__"] = info] has
    replaced its prototype by [info], and [None] while the prototype is
    [Object.prototype]. *)
Record SpriteManager : Type := mkSpriteManager {
  own : gmap string SpriteInfo;
  proto : option SpriteInfo
}.

(** [new SpriteManager()]. *)
Definition SpriteManager_new : SpriteManager :=
  {| own := ∅; proto := None |}.

(** [addSprite(type, imagePath, spriteWidth, spriteHeight)]. *)
Definition addSprite (type imagePath : string) (spriteWidth spriteHeight : positive)
    (m : SpriteManager) : SpriteManager :=
  let info := mkSpriteInfo imagePath spriteWidth spriteHeight _createItems in
  if String.eqb type "__proto__" then
    {| own := own m; proto := Some info |}
  else
    {| own := <[type := info]> (own m); proto := proto m |}.

(** The image registered under [type] finishes loading: its callback
    fills the array stored there. *)
Definition image_loaded (type : string) (width height : N) (m : SpriteManager)
  : SpriteManager :=
  let fill info :=
    set_items info
      (onload width height (spriteWidth info) (spriteHeight info) (items info)) in
  if String.eqb type "__proto__" then
    {| own := own m; proto := fill <$> proto m |}
  else
    {| own := alter fill type (own m); proto := proto m |}.

(** What a property read on [this.sprites] can yield. *)
Inductive Value : Type :=
| VUndefined
| VString (s : string)
| VNumber (n : positive)
| VArray (l : list Item)
| VObject (info : SpriteInfo)
| VInherited (name : string).

(** [this.sprites[type]]: own properties, then the prototype chain. *)
Definition read (m : SpriteManager) (k : string) : Value :=
  match own m !! k with
  | Some info => VObject info
  | None =>
      match proto m with
      | Some info =>
          if String.eqb k "imagePath" then VString (imagePath info)
          else if String.eqb k "spriteWidth" then VNumber (spriteWidth info)
          else if String.eqb k "spriteHeight" then VNumber (spriteHeight info)
          else if String.eqb k "items" then VArray (items info)
          else if String.eqb k "__proto__" then VObject info
          else if Js.inherited k then VInherited k
          else VUndefined
      | None => if Js.inherited k then VInherited k else VUndefined
      end
  end.

Definition truthy (v : Value) : bool :=
  match v with
  | VUndefined => false
  | VString s => negb (String.eqb s "")
  | VNumber _ | VArray _ | VObject _ | VInherited _ => true
  end.

(** [v.items]. *)
Definition items_of (v : Value) : Value :=
  match v with
  | VObject info => VArray (items info)
  | _ => VUndefined
  end.

(** [v.imagePath]. *)
Definition imagePath_of (v : Value) : Value :=
  match v with
  | VObject info => VString (imagePath info)
  | _ => VUndefined
  end.

(** [{ type, item, color }]; an omitted colour is [None]. *)
Record Request : Type := mkRequest {
  type : string;
  item : Z;
  color : option string
}.

(** [{ imagePath, position, color }]; [position] is [items[item]],
    [undefined] when no element has that index. *)
Record SpriteResult : Type := mkSpriteResult {
  r_imagePath : Value;
  r_position : option Item;
  r_color : string
}.

(** [items[item]]. *)
Definition element (l : list Item) (i : Z) : option Item :=
  if (i <? 0)%Z then None else l !! Z.to_nat i.

(** [getSprite(request)]; [None] is the returned [null]. *)
Definition getSprite (m : SpriteManager) (request : Request)
  : Completion (option SpriteResult) :=
  let color := default "default" (color request) in
  if truthy (read m (type request)) then
    let spriteInfo := read m (type request) in
    match items_of spriteInfo with
    | VArray l =>
        if (item request <? Z.of_nat (length l))%Z then
          Normal (Some {| r_imagePath := imagePath_of spriteInfo;
                          r_position := element l (item request);
                          r_color := color |})
        else Normal None
    | _ =>
        Throw (Js.TypeError "Cannot read properties of undefined (reading 'length')")
    end
  else Normal None.

(** [colorMap] of [getColorRotation]: an object literal. *)
Definition colorMap : gmap string Z :=
  <["red" := 0%Z]> (<["green" := 120%Z]> (<["blue" := 240%Z]> ∅)).

(** What [getColorRotation] can return: a number of degrees, or the value
    an inherited name of [Object.prototype] is bound to. *)
Inductive Rotation : Type :=
| Degrees (n : Z)
| Inherited (name : string).

(** [getColorRotation(color)]: [colorMap[color] || 0]. *)
Definition getColorRotation (color : string) : Rotation :=
  match colorMap !! color with
  | Some n => if (n =? 0)%Z then Degrees 0 else Degrees n
  | None => if Js.inherited color then Inherited color else Degrees 0
  end.

End Sprites.

(** ** game-dev-hub.ejs: the sprite manager inlined in the page *)

Module Page.

Import Sprites.

(** The loop of the [img.onload] callback of [_loadSpriteImage], where
    [cols] and [totalItems] are integers. *)
Fixpoint push_items (fuel : nat) (i totalItems cols : Z)
    (spriteWidth spriteHeight : positive) (items : list Item)
  : option (list Item) :=
  if (i <? totalItems)%Z then
    match fuel with
    | O => None
    | S fuel' =>
        let x := (Z.rem i cols * Zpos spriteWidth)%Z in
        let y := (Js.floor (inject_Z i / inject_Z cols) * Zpos spriteHeight)%Z in
        push_items fuel' (i + 1) totalItems cols spriteWidth spriteHeight
          (items ++ [mkItem i (inject_Z x) (inject_Z y)])
    end
  else Some items.

(** The [img.onload] callback of [_loadSpriteImage]:
    [cols = Math.floor(img.width / spriteWidth)],
    [rows = Math.floor(img.height / spriteHeight)],
    [totalItems = rows * cols]. *)
Definition onload (width height : N) (spriteWidth spriteHeight : positive)
    (items : list Item) : list Item :=
  let cols := Js.floor (inject_Z (Z.of_N width) / inject_Z (Zpos spriteWidth)) in
  let rows := Js.floor (inject_Z (Z.of_N height) / inject_Z (Zpos spriteHeight)) in
  let totalItems := (rows * cols)%Z in
  match push_items (Z.to_nat totalItems) 0 totalItems cols
          spriteWidth spriteHeight items with
  | Some l => l
  | None => items
  end.

(** The page's [addSprite] stores the same object as builder.js's (and
    then starts the load). *)
Definition addSprite : string -> string -> positive -> positive ->
                       SpriteManager -> SpriteManager :=
  Sprites.addSprite.

(** [request.color || 'default']: an omitted or empty colour is replaced. *)
Definition color_or_default (c : option string) : string :=
  match c with
  | Some s => if String.eqb s "" then "default" else s
  | None => "default"
  end.

(** The page's [getSprite(request)]:
    [if (spriteInfo && spriteInfo.items[item])]; a tile object is truthy,
    a missing element is [undefined]. *)
Definition getSprite (m : SpriteManager) (request : Request)
  : Completion (option SpriteResult) :=
  let spriteInfo := read m (type request) in
  if truthy spriteInfo then
    match items_of spriteInfo with
    | VArray l =>
        match element l (item request) with
        | Some tile =>
            Normal (Some {| r_imagePath := imagePath_of spriteInfo;
                            r_position := Some tile;
                            r_color := color_or_default (color request) |})
        | None => Normal None
        end
    | _ => Throw (Js.TypeError "Cannot read properties of undefined")
    end
  else Normal None.

(** The [img.onload] callback of [_loadSpriteImage(type, imagePath,
    spriteWidth, spriteHeight)] when its image has loaded at [width] by
    [height] pixels.  Unlike builder.js it pushes to
    [this.sprites[type].items] as found at load time, and reads it once
    more for the log line that ends the callback. *)
Definition image_loaded (type : string) (spriteWidth spriteHeight : positive)
    (width height : N) (m : SpriteManager) : SpriteManager * Completion unit :=
  let pushed items := onload width height spriteWidth spriteHeight items in
  match own m !! type with
  | Some info =>
      ({| own := <[type := set_items info (pushed (items info))]> (own m);
          proto := proto m |}, Normal tt)
  | None =>
      match proto m, String.eqb type "__proto__" with
      | Some info, true =>
          ({| own := own m;
              proto := Some (set_items info (pushed (items info))) |}, Normal tt)
      | _, _ =>
          match read m type, pushed [] with
          | VUndefined, _ =>
              (m, Throw (Js.TypeError "Cannot read properties of undefined (reading 'items')"))
          | _, [] => (m, Normal tt)
          | _, _ :: _ =>
              (m, Throw (Js.TypeError "Cannot read properties of undefined (reading 'push')"))
          end
      end
  end.

End Page.

(** ** build.js: entities *)

Module Game.

(** [hitbox = [x, y, w, h]]. *)
Record Hitbox : Type := mkHitbox { hx : Q; hy : Q; hw : Q; hh : Q }.

(** [class Sprite]: an image and the path it loads. *)
Record Sprite : Type := mkSprite { image_src : string }.

(** The fields the [Entity] constructor creates.  [isDestroyed] is the
    property [cleanup] reads; no constructor and no method of the program
    writes it, so it is absent ([None], JavaScript's [undefined]) unless
    code outside the program sets it. *)
Record Entity : Type := mkEntity {
  pos : Q * Q;
  vel : Q * Q;
  sprite : Sprite;
  hitbox : Hitbox;
  dying : bool;
  isDestroyed : option bool
}.

(** [constructor(pos, sprite)]. *)
Definition Entity_new (p : Q * Q) (s : Sprite) : Entity :=
  {| pos := p;
     vel := (0, 0)%Q;
     sprite := s;
     hitbox := mkHitbox (fst p) (snd p) 16 16;
     dying := false;
     isDestroyed := None |}.

Definition set_pos (e : Entity) (p : Q * Q) : Entity :=
  {| pos := p; vel := vel e; sprite := sprite e; hitbox := hitbox e;
     dying := dying e; isDestroyed := isDestroyed e |}.

Definition set_vel (e : Entity) (v : Q * Q) : Entity :=
  {| pos := pos e; vel := v; sprite := sprite e; hitbox := hitbox e;
     dying := dying e; isDestroyed := isDestroyed e |}.

Definition set_dying (e : Entity) (d : bool) : Entity :=
  {| pos := pos e; vel := vel e; sprite := sprite e; hitbox := hitbox e;
     dying := d; isDestroyed := isDestroyed e |}.

(** [isCollideWith(entity)]:
    [!(x1 > x2 + w2 || x1 + w1 < x2 || y1 > y2 + h2 || y1 + h1 < y2)]. *)
Definition boxes_collide (a b : Hitbox) : bool :=
  negb (Js.gt (hx a) (hx b + hw b)
        || Js.lt (hx a + hw a) (hx b)
        || Js.gt (hy a) (hy b + hh b)
        || Js.lt (hy a + hh a) (hy b)).

Definition isCollideWith (this entity : Entity) : bool :=
  boxes_collide (hitbox this) (hitbox entity).

Section Bounds.

(** [canvas.width]: [canvas] is a free global of build.js, supplied by
    the page that loads the script. *)
Variable canvas_width : Q.

(** [checkBounds()]. *)
Definition checkBounds (e : Entity) : Entity :=
  if Js.lt (fst (pos e)) 0 then
    set_pos e (0%Q, snd (pos e))
  else if Js.gt (fst (pos e)) (canvas_width - hw (hitbox e)) then
    set_pos e ((canvas_width - hw (hitbox e))%Q, snd (pos e))
  else e.

(** [Entity.update()]. *)
Definition Entity_update (e : Entity) : Entity :=
  let e1 := set_pos e ((fst (pos e) + fst (vel e))%Q, snd (pos e)) in
  let e2 := set_pos e1 (fst (pos e1), (snd (pos e1) + snd (vel e1))%Q) in
  checkBounds e2.

End Bounds.

(** *** The class table of build.js *)

Inductive Class : Type :=
| CEntity | CPlayer | CEnemy | CPowerUp | CSprite | CDevGameMaker.

(** The methods each class body declares. *)
Definition own_methods (c : Class) : list string :=
  match c with
  | CEntity =>
      ["update"; "checkBounds"; "render"; "isCollideWith"; "destroy"]
  | CPlayer =>
      ["moveLeft"; "moveRight"; "jump"; "fire"; "update"; "render"]
  | CEnemy => ["update"; "render"]
  | CPowerUp => ["activate"; "render"]
  | CSprite => ["render"]
  | CDevGameMaker =>
      ["init"; "handleKeyPress"; "togglePause"; "gameLoop";
       "updateEntities"; "on"; "emit"; "handleCollisions";
       "checkPlayerCollisionWithEnemy"; "checkPlayerCollisionWithPowerUp";
       "renderEntities"; "clearCanvas"; "cleanup"; "restartGame"]
  end%string.

(** [class C extends Entity]. *)
Definition superclass (c : Class) : option Class :=
  match c with
  | CPlayer | CEnemy | CPowerUp => Some CEntity
  | CEntity | CSprite | CDevGameMaker => None
  end.

(** Method resolution along the prototype chain: the class, its
    superclass, then [Object.prototype]. *)
Definition has_method (c : Class) (m : string) : bool :=
  bool_decide (m ∈ own_methods c)
  || match superclass c with
     | Some s => bool_decide (m ∈ own_methods s)
     | None => false
     end
  || Js.inherited m.

(** *** The state-and-exception monad *)

Definition M (S A : Type) : Type := S -> S * Completion A.

#[global] Instance M_ret {S} : MRet (M S) :=
  fun A (a : A) (s : S) => (s, Normal a).

#[global] Instance M_bind {S} : MBind (M S) :=
  fun A B (f : A -> M S B) (m : M S A) (s : S) =>
    match m s with
    | (s', Normal a) => f a s'
    | (s', Throw e) => (s', Throw e)
    end.

Definition throw {S A} (e : Js.Error) : M S A := fun s => (s, Throw e).
Definition get {S} : M S S := fun s => (s, Normal s).
Definition modify {S} (f : S -> S) : M S unit := fun s => (f s, Normal tt).

(** [receiver.m(...)] for a method name the source calls without
    declaring it: the lookup along the prototype chain decides. *)
Definition call_undeclared {S} (c : Class) (m : string) : M S unit :=
  if has_method c m then mret tt
  else throw (Js.TypeError (m +:+ " is not a function")).

(** [array.forEach(body)] by index, over the length read at the start. *)
Fixpoint forEach_from {S} (n i : nat) (body : nat -> M S unit) : M S unit :=
  match n with
  | O => mret tt
  | Datatypes.S n' => body i ;; forEach_from n' (Datatypes.S i) body
  end.

Definition forEach {S} (len : nat) (body : nat -> M S unit) : M S unit :=
  forEach_from len 0 body.

(** *** Player, Enemy, PowerUp *)

Definition Sprite_new (imagePath : string) : Sprite := mkSprite imagePath.

Record Player : Type := mkPlayer {
  p_base : Entity;
  health : Q;
  invincibility : bool
}.

Record Enemy : Type := mkEnemy { e_base : Entity }.

Record PowerUp : Type := mkPowerUp { u_base : Entity; type : string }.

Definition Player_new (p : Q * Q) : Player :=
  {| p_base := Entity_new p (Sprite_new "path/to/player/sprite");
     health := 100;
     invincibility := false |}.

Definition Enemy_new (p : Q * Q) : Enemy :=
  {| e_base :=
       set_dying (Entity_new p (Sprite_new "path/to/enemy/sprite")) false |}.

Definition PowerUp_new (p : Q * Q) (t : string) : PowerUp :=
  {| u_base := Entity_new p (Sprite_new "path/to/powerup/sprite");
     type := t |}.

Definition on_base (f : Entity -> Entity) (p : Player) : Player :=
  {| p_base := f (p_base p); health := health p;
     invincibility := invincibility p |}.

Definition set_invincibility (p : Player) (b : bool) : Player :=
  {| p_base := p_base p; health := health p; invincibility := b |}.

(** [moveLeft()], [moveRight()], [jump()]. *)
Definition moveLeft (p : Player) : Player :=
  on_base (fun e => set_vel e ((-5)%Q, snd (vel e))) p.
Definition moveRight (p : Player) : Player :=
  on_base (fun e => set_vel e (5%Q, snd (vel e))) p.
Definition jump (p : Player) : Player :=
  on_base (fun e => set_vel e (fst (vel e), (-10)%Q)) p.

(** [entity.destroy()]: the flag is written, then [this.emit] is looked
    up on the entity; the receiver's class is [c]. *)
Definition destroy (c : Class) : M Entity unit :=
  modify (fun e => set_dying e true) ;;
  call_undeclared c "emit".

Section Frames.

Variable canvas_width : Q.

(** [Player.update()]. *)
Definition Player_update (p : Player) : Player :=
  let p1 := on_base (Entity_update canvas_width) p in
  let p2 :=
    on_base (fun e => set_vel e (fst (vel e), (snd (vel e) + (1 # 2))%Q)) p1 in
  if negb (Qeq_bool (fst (vel (p_base p2))) 0) then
    on_base (fun e => set_vel e (0%Q, snd (vel e))) p2
  else p2.

(** [Enemy.update()]: only [super.update()]. *)
Definition Enemy_update (e : Enemy) : Enemy :=
  mkEnemy (Entity_update canvas_width (e_base e)).

(** [PowerUp] inherits [Entity.update()]. *)
Definition PowerUp_update (u : PowerUp) : PowerUp :=
  mkPowerUp (Entity_update canvas_width (u_base u)) (type u).

End Frames.

(** *** DevGameMaker and the host it runs in *)

(** What the host observes of a run, oldest first. *)
Inductive Event : Type :=
| ConsoleLog (msg : string)
| Invoked (event : string) (listener : nat)
| MapCall (map : nat) (method : string)
| CanvasCall (method : string)
| Uncaught (e : Js.Error).

(** The fields of [DevGameMaker], but for [maps], which the constructor
    sets to [{}] and nothing reads or writes afterwards.  A listener is a
    handle to a function of the embedding page; calling it is recorded,
    and it is taken not to write the controller.  [currentMap] is [null]
    or a handle to an object made outside the program (the program never
    assigns it). *)
Record DevGameMaker : Type := mkGame {
  enemies : list Enemy;
  powerUps : list PowerUp;
  eventListeners : gmap string (list nat);
  player : Player;
  currentMap : option nat;
  playerLives : Z;
  isPaused : bool;
  score : Z
}.

(** The controller together with the host state it writes:
    [frames] counts the [gameLoop] callbacks queued by
    [requestAnimationFrame], [timeouts] holds the delays of the pending
    [setTimeout] callbacks (each clears the player's invincibility). *)
Record World : Type := mkWorld {
  game : DevGameMaker;
  frames : nat;
  timeouts : list Q;
  console : list Event
}.

Definition on_game (f : DevGameMaker -> DevGameMaker) (w : World) : World :=
  {| game := f (game w); frames := frames w; timeouts := timeouts w;
     console := console w |}.

Definition set_enemies (l : list Enemy) (g : DevGameMaker) : DevGameMaker :=
  {| enemies := l; powerUps := powerUps g;
     eventListeners := eventListeners g; player := player g;
     currentMap := currentMap g; playerLives := playerLives g;
     isPaused := isPaused g; score := score g |}.

Definition set_powerUps (l : list PowerUp) (g : DevGameMaker) : DevGameMaker :=
  {| enemies := enemies g; powerUps := l;
     eventListeners := eventListeners g; player := player g;
     currentMap := currentMap g; playerLives := playerLives g;
     isPaused := isPaused g; score := score g |}.

Definition set_eventListeners (m : gmap string (list nat)) (g : DevGameMaker)
  : DevGameMaker :=
  {| enemies := enemies g; powerUps := powerUps g;
     eventListeners := m; player := player g;
     currentMap := currentMap g; playerLives := playerLives g;
     isPaused := isPaused g; score := score g |}.

Definition set_player (p : Player) (g : DevGameMaker) : DevGameMaker :=
  {| enemies := enemies g; powerUps := powerUps g;
     eventListeners := eventListeners g; player := p;
     currentMap := currentMap g; playerLives := playerLives g;
     isPaused := isPaused g; score := score g |}.

Definition set_playerLives (n : Z) (g : DevGameMaker) : DevGameMaker :=
  {| enemies := enemies g; powerUps := powerUps g;
     eventListeners := eventListeners g; player := player g;
     currentMap := currentMap g; playerLives := n;
     isPaused := isPaused g; score := score g |}.

Definition set_isPaused (b : bool) (g : DevGameMaker) : DevGameMaker :=
  {| enemies := enemies g; powerUps := powerUps g;
     eventListeners := eventListeners g; player := player g;
     currentMap := currentMap g; playerLives := playerLives g;
     isPaused := b; score := score g |}.

Definition set_score (n : Z) (g : DevGameMaker) : DevGameMaker :=
  {| enemies := enemies g; powerUps := powerUps g;
     eventListeners := eventListeners g; player := player g;
     currentMap := currentMap g; playerLives := playerLives g;
     isPaused := isPaused g; score := n |}.

(** [console.log] and the other writes to the host. *)
Definition record (ev : list Event) : M World unit :=
  modify (fun w =>
    {| game := game w; frames := frames w; timeouts := timeouts w;
       console := console w ++ ev |}).

Definition log (msg : string) : M World unit := record [ConsoleLog msg].

(** [requestAnimationFrame(this.gameLoop.bind(this))]. *)
Definition requestAnimationFrame : M World unit :=
  modify (fun w =>
    {| game := game w; frames := Datatypes.S (frames w);
       timeouts := timeouts w; console := console w |}).

(** [setTimeout(() => { player.invincibility = false }, delay)]. *)
Definition setTimeout (delay : Q) : M World unit :=
  modify (fun w =>
    {| game := game w; frames := frames w;
       timeouts := timeouts w ++ [delay]; console := console w |}).

Definition update_game (f : DevGameMaker -> DevGameMaker) : M World unit :=
  modify (on_game f).

(** [on(event, callback)]: [eventListeners] is an ordinary object, so a
    name of [Object.prototype] reads as a truthy value that has no
    [push]. *)
Definition on (event : string) (callback : nat) : M World unit :=
  w ← get;
  match eventListeners (game w) !! event with
  | Some cbs =>
      update_game (fun g =>
        set_eventListeners (<[event := cbs ++ [callback]]> (eventListeners g)) g)
  | None =>
      if Js.inherited event then
        throw (Js.TypeError "this.eventListeners[event].push is not a function")
      else
        update_game (fun g =>
          set_eventListeners (<[event := [callback]]> (eventListeners g)) g)
  end.

(** [emit(event, ...args)]. *)
Definition emit (event : string) : M World unit :=
  w ← get;
  match eventListeners (game w) !! event with
  | Some cbs => record (Invoked event <$> cbs)
  | None =>
      if Js.inherited event then
        throw (Js.TypeError "this.eventListeners[event].forEach is not a function")
      else mret tt
  end.

(** [togglePause()]. *)
Definition togglePause : M World unit :=
  update_game (fun g => set_isPaused (negb (isPaused g)) g) ;;
  emit "pauseToggled" ;;
  w ← get;
  if isPaused (game w) then log "Game paused" else log "Game resumed".

(** [entity.render()] as the controller calls it, without arguments:
    [Sprite.render] then reads [drawImage] from the undefined [ctx]. *)
Definition render : M World unit :=
  throw (Js.TypeError "Cannot read properties of undefined (reading 'drawImage')").

(** [clearCanvas()]. *)
Definition clearCanvas : M World unit :=
  call_undeclared CDevGameMaker "getRenderingContext" ;;
  record [CanvasCall "clearRect"].

(** [renderEntities()]. *)
Definition renderEntities : M World unit :=
  clearCanvas ;;
  w ← get;
  match currentMap (game w) with
  | Some m => record [MapCall m "render"]
  | None => mret tt
  end ;;
  render ;;
  forEach (length (enemies (game w))) (fun _ => render) ;;
  forEach (length (powerUps (game w))) (fun _ => render).

(** The truth value of [entity.isDestroyed]; an absent property is
    [undefined], which is falsy. *)
Definition is_destroyed (e : Entity) : bool :=
  match isDestroyed e with
  | Some b => b
  | None => false
  end.

(** [cleanup()]. *)
Definition cleanup : M World unit :=
  update_game (fun g =>
    set_enemies
      (List.filter (fun enemy => negb (is_destroyed (e_base enemy))) (enemies g)) g) ;;
  update_game (fun g =>
    set_powerUps
      (List.filter (fun powerUp => negb (is_destroyed (u_base powerUp))) (powerUps g)) g).

(** [restartGame()]. *)
Definition restartGame : M World unit :=
  update_game (set_playerLives 3) ;;
  update_game (set_score 0) ;;
  call_undeclared CPlayer "setPosition" ;;
  w ← get;
  forEach (length (enemies (game w))) (fun _ => call_undeclared CEnemy "reset") ;;
  forEach (length (powerUps (game w))) (fun _ => call_undeclared CPowerUp "reset") ;;
  match currentMap (game w) with
  | Some m => record [MapCall m "reset"]
  | None => throw (Js.TypeError "Cannot read properties of null (reading 'reset')")
  end ;;
  update_game (set_isPaused false) ;;
  emit "gameRestarted".

(** The statements of [checkPlayerCollisionWithEnemy] that follow the
    call of [takeDamage]: the decrement, the log line (its text without
    the interpolated count), and the game-over branch. *)
Definition after_takeDamage : M World unit :=
  update_game (fun g => set_playerLives (playerLives g - 1) g) ;;
  log "Player hit! Lives remaining" ;;
  w' ← get;
  if (playerLives (game w') <=? 0)%Z then
    emit "gameOver" ;;
    log "Game Over!" ;;
    restartGame
  else mret tt.

(** [checkPlayerCollisionWithEnemy(enemy)], for the enemy at index [i]. *)
Definition checkPlayerCollisionWithEnemy (i : nat) : M World unit :=
  w ← get;
  match enemies (game w) !! i with
  | None => mret tt
  | Some enemy =>
      if isCollideWith (p_base (player (game w))) (e_base enemy)
         && negb (dying (e_base enemy))
         && negb (invincibility (player (game w)))
      then
        emit "playerHit" ;;
        call_undeclared CPlayer "takeDamage" ;;
        after_takeDamage
      else mret tt
  end.

(** [powerUp.activate(player)]. *)
Definition activate (powerUp : PowerUp) : M World unit :=
  if String.eqb (type powerUp) "speed" then
    log "Speed power-up activated!"
  else if String.eqb (type powerUp) "invincibility" then
    log "Invincibility power-up activated!" ;;
    update_game (fun g => set_player (set_invincibility (player g) true) g) ;;
    setTimeout 5000
  else mret tt.

(** A method of the power-up at index [i] run in place: what it writes
    to the object is written to the element of [powerUps]. *)
Definition on_powerUp {A} (i : nat) (powerUp : PowerUp) (m : M Entity A)
  : M World A :=
  fun w =>
    let (e', c) := m (u_base powerUp) in
    (on_game (fun g =>
       set_powerUps (<[i := mkPowerUp e' (type powerUp)]> (powerUps g)) g) w, c).

(** [checkPlayerCollisionWithPowerUp(powerUp)], for the power-up at
    index [i]. *)
Definition checkPlayerCollisionWithPowerUp (i : nat) : M World unit :=
  w ← get;
  match powerUps (game w) !! i with
  | None => mret tt
  | Some powerUp =>
      if isCollideWith (p_base (player (game w))) (u_base powerUp) then
        emit "playerPowerUp" ;;
        activate powerUp ;;
        on_powerUp i powerUp (destroy CPowerUp)
      else mret tt
  end.

(** [handleCollisions()]. *)
Definition handleCollisions : M World unit :=
  w ← get;
  forEach (length (enemies (game w))) checkPlayerCollisionWithEnemy ;;
  w' ← get;
  forEach (length (powerUps (game w'))) checkPlayerCollisionWithPowerUp.

Section Loop.

Variable canvas_width : Q.

(** [updateEntities()]: no update throws, so each [forEach] is a map. *)
Definition updateEntities : M World unit :=
  update_game (fun g => set_enemies (Enemy_update canvas_width <$> enemies g) g) ;;
  update_game (fun g => set_powerUps (PowerUp_update canvas_width <$> powerUps g) g) ;;
  update_game (fun g => set_player (Player_update canvas_width (player g)) g).

(** [gameLoop()]. *)
Definition gameLoop : M World unit :=
  w ← get;
  if isPaused (game w) then mret tt
  else
    updateEntities ;;
    handleCollisions ;;
    renderEntities ;;
    cleanup ;;
    requestAnimationFrame.

(** [handleKeyPress(event)], on [event.code]. *)
Definition handleKeyPress (code : string) : M World unit :=
  w ← get;
  if isPaused (game w) then mret tt
  else if String.eqb code "ArrowLeft" then
    update_game (fun g => set_player (moveLeft (player g)) g)
  else if String.eqb code "ArrowRight" then
    update_game (fun g => set_player (moveRight (player g)) g)
  else if String.eqb code "Space" then
    update_game (fun g => set_player (jump (player g)) g)
  else if String.eqb code "KeyF" then
    log "Player fired!"
  else if String.eqb code "Escape" then
    togglePause
  else if String.eqb code "KeyR" then
    restartGame
  else mret tt.

(** [new DevGameMaker()]: the field initialisers, then [init()], which
    registers the key listener and queues the first [gameLoop]. *)
Definition DevGameMaker_new : World :=
  {| game :=
       {| enemies := []; powerUps := []; eventListeners := ∅;
          player := Player_new (50, 100)%Q; currentMap := None;
          playerLives := 3; isPaused := false; score := 0 |};
     frames := 1;
     timeouts := [];
     console := [] |}.

(** A callback run by the host: an error it throws is reported and
    goes no further. *)
Definition run_callback (m : M World unit) (w : World) : World :=
  match m w with
  | (w', Normal _) => w'
  | (w', Throw e) =>
      {| game := game w'; frames := frames w'; timeouts := timeouts w';
         console := console w' ++ [Uncaught e] |}
  end.

(** What the host delivers to the page. *)
Inductive Input : Type :=
| KeyDown (code : string)
| AnimationFrame
| TimeoutFired.

(** The host presents a frame: the callbacks queued so far run once
    each; what they queue waits for the next frame. *)
Definition animation_frame (w : World) : World :=
  Nat.iter (frames w) (run_callback gameLoop)
    {| game := game w; frames := 0; timeouts := timeouts w;
       console := console w |}.

(** The oldest pending timeout fires. *)
Definition timeout_fired (w : World) : World :=
  match timeouts w with
  | [] => w
  | _ :: rest =>
      {| game := set_player (set_invincibility (player (game w)) false) (game w);
         frames := frames w; timeouts := rest; console := console w |}
  end.

Definition step (i : Input) (w : World) : World :=
  match i with
  | KeyDown code => run_callback (handleKeyPress code) w
  | AnimationFrame => animation_frame w
  | TimeoutFired => timeout_fired w
  end.

Definition run (inputs : list Input) (w : World) : World :=
  fold_left (fun w i => step i w) inputs w.

End Loop.

End Game.

(** * Statements *)

(** ** What the collision claims speak of *)

Module CollisionSpec.

Import Game.

(** The length of the overlap of the two boxes on each axis: the least
    right (bottom) edge minus the greatest left (top) edge. *)
Definition overlap_x (a b : Hitbox) : Q :=
  (Qmin (hx a + hw a) (hx b + hw b) - Qmax (hx a) (hx b))%Q.

Definition overlap_y (a b : Hitbox) : Q :=
  (Qmin (hy a + hh a) (hy b + hh b) - Qmax (hy a) (hy b))%Q.

(** The specification's reading: a strictly positive extent on both axes. *)
Definition overlap_positive (a b : Hitbox) : Prop :=
  (0 < overlap_x a b)%Q /\ (0 < overlap_y a b)%Q.

(** The program's reading: the closed boxes meet. *)
Definition overlap_nonneg (a b : Hitbox) : Prop :=
  (0 <= overlap_x a b)%Q /\ (0 <= overlap_y a b)%Q.

(** The boxes have non-negative width and height, as every box the
    [Entity] constructor builds. *)
Definition well_formed (a : Hitbox) : Prop :=
  (0 <= hw a)%Q /\ (0 <= hh a)%Q.

End CollisionSpec.

(** ** What can happen to a player between two collision tests *)

Module HitboxSpec.

Import Game.

(** What can happen to a player between two collision tests. *)
Inductive Command : Type :=
| MoveLeft | MoveRight | Jump | Update.

Definition apply (canvas_width : Q) (p : Player) (c : Command) : Player :=
  match c with
  | MoveLeft => moveLeft p
  | MoveRight => moveRight p
  | Jump => jump p
  | Update => Player_update canvas_width p
  end.

End HitboxSpec.

(** ** Scenarios and frame conditions of the controller *)

Module ControllerSpec.

Import Game.

(** The controller as constructed, with one enemy standing where the
    player is built. *)
Definition world_with_enemy : World :=
  on_game (set_enemies [Enemy_new (50, 100)%Q]) DevGameMaker_new.


(** The controller as constructed, with one power-up standing where the
    player is built, and a listener (handle 7) subscribed to
    "destroyed". *)
Definition world_with_powerUp : World :=
  fst (on "destroyed" 7
         (on_game (set_powerUps [PowerUp_new (50, 100)%Q "speed"]) DevGameMaker_new)).

(** The hitboxes of the enemies and of the power-ups, in order. *)
Definition enemy_boxes (w : World) : list Hitbox :=
  (hitbox ∘ e_base) <$> enemies (game w).

Definition powerUp_boxes (w : World) : list Hitbox :=
  (hitbox ∘ u_base) <$> powerUps (game w).

(** [stable w w']: from [w] to [w'] no frame was queued, the player's
    hitbox is the same, and the hitboxes of the enemies and of the
    power-ups are the same ones, less those of removed entities. *)
Definition stable (w w' : World) : Prop :=
  frames w' = frames w /\
  hitbox (p_base (player (game w'))) = hitbox (p_base (player (game w))) /\
  enemy_boxes w' `sublist_of` enemy_boxes w /\
  powerUp_boxes w' `sublist_of` powerUp_boxes w.

(** A computation is steady when every run of it is [stable]. *)
Definition steady {A : Type} (m : M World A) : Prop :=
  forall w, stable w (fst (m w)).

(** The entities' boxes from one world to a later one. *)
Definition boxes_kept (w w' : World) : Prop :=
  hitbox (p_base (player (game w'))) = hitbox (p_base (player (game w))) /\
  enemy_boxes w' `sublist_of` enemy_boxes w /\
  powerUp_boxes w' `sublist_of` powerUp_boxes w.

End ControllerSpec.

(** ** Histories of a sprite manager *)

Module SpriteSpec.

Import Sprites.

(** What happens to a manager: a registration, or the image registered
    under a type finishing its load with the given pixel size. *)
Inductive Op : Type :=
| Add (type imagePath : string) (spriteWidth spriteHeight : positive)
| Loaded (type : string) (width height : N).

Definition apply (m : SpriteManager) (op : Op) : SpriteManager :=
  match op with
  | Add t path w h => addSprite t path w h m
  | Loaded t width height => image_loaded t width height m
  end.

Definition history (ops : list Op) : SpriteManager :=
  fold_left apply ops SpriteManager_new.

(** The types a history registers. *)
Definition registered (ops : list Op) : list string :=
  omap (fun op => match op with Add t _ _ _ => Some t | Loaded _ _ _ => None end) ops.

(** The manager of the example at the foot of builder.js, once both
    sheets (64 by 32 pixels here) have loaded. *)
Definition example_manager : SpriteManager :=
  history [ Add "grass" "path/to/grass.png" 16 16;
            Add "floor" "path/to/floor.png" 16 16;
            Loaded "grass" 64 32; Loaded "floor" 64 32 ].

End SpriteSpec.

(** ** The specification's tile layout *)

Module TileSpec.

Import Sprites.

(** The specification's tile count,
    floor(W / tw) x floor(H / th). *)
Definition tile_count (W H : N) (tw th : positive) : Z :=
  ((Z.of_N W / Zpos tw) * (Z.of_N H / Zpos th))%Z.

(** The specification's row-major position of tile [i]:
    x = (i mod floor(W / tw)) x tw, y = floor(i / floor(W / tw)) x th. *)
Definition row_major (W : N) (tw th : positive) (i : Z) : Z * Z :=
  let cols := (Z.of_N W / Zpos tw)%Z in
  ((i mod cols) * Zpos tw, (i / cols) * Zpos th)%Z.

(** The specification's invariant of the tiles of a loaded sheet. *)
Definition laid_out (W H : N) (tw th : positive) (tiles : list Item) : Prop :=
  Z.of_nat (length tiles) = tile_count W H tw th /\
  forall (i : nat) (t : Item), tiles !! i = Some t ->
    index t = Z.of_nat i /\
    (x t == inject_Z (fst (row_major W tw th (Z.of_nat i))))%Q /\
    (y t == inject_Z (snd (row_major W tw th (Z.of_nat i))))%Q.

(** The tile one iteration of the loop of [_createItems] pushes. *)
Definition tile (cols : Q) (tw th : positive) (i : Z) : Item :=
  mkItem i
    (Js.rem (inject_Z i) cols * inject_Z (Zpos tw))%Q
    (inject_Z (Js.floor (inject_Z i / cols)) * inject_Z (Zpos th))%Q.

(** The tile one iteration of the loop of [_loadSpriteImage] pushes. *)
Definition page_tile (cols : Z) (tw th : positive) (i : Z) : Item :=
  mkItem i
    (inject_Z (Z.rem i cols * Zpos tw))
    (inject_Z (Js.floor (inject_Z i / inject_Z cols) * Zpos th)).

End TileSpec.

(** ** What the further properties speak of *)

Module ExtraSpec.

Import Sprites Game.

(** The sprite [getSprite] builds for a registration and a tile. *)
Definition sprite_of (info : SpriteInfo) (position : option Item) (color : string)
  : SpriteResult :=
  {| r_imagePath := VString (imagePath info);
     r_position := position;
     r_color := color |}.

(** The tile at column [i mod cols], row [i / cols] of a sheet [W] wide cut
    into tiles of [tw] by [th]. *)
Definition at_grid (W : N) (tw th : positive) (i : Z) (t : Item) : Prop :=
  index t = i /\
  (x t == inject_Z ((i mod (Z.of_N W / Zpos tw)) * Zpos tw))%Q /\
  (y t == inject_Z ((i / (Z.of_N W / Zpos tw)) * Zpos th))%Q.

(** The x coordinate lies between the left edge of the canvas and the
    last place where the hitbox still fits. *)
Definition in_canvas (canvas_width : Q) (e : Entity) : Prop :=
  (0 <= fst (pos e) <= canvas_width - hw (hitbox e))%Q.

(** Equality of positions and velocities as numbers. *)
Definition same_point (p q : Q * Q) : Prop :=
  (fst p == fst q)%Q /\ (snd p == snd q)%Q.

(** From [w] to [w'] the lives are as they were or were reset to 3, and
    the score is as it was or was reset to 0. *)
Definition lives_kept (w w' : World) : Prop :=
  (playerLives (game w') = playerLives (game w) \/ playerLives (game w') = 3%Z) /\
  (score (game w') = score (game w) \/ score (game w') = 0%Z).

(** Every run of the computation is [lives_kept]. *)
Definition keeps_lives {A : Type} (m : M World A) : Prop :=
  forall w, lives_kept w (fst (m w)).

End ExtraSpec.

(** * Properties *)

(** ** Comparisons *)

Module JsFacts.

Lemma lt_spec (a b : Q) : Js.lt a b = true <-> (a < b)%Q.
Proof.
  unfold Js.lt. rewrite negb_true_iff, <- not_true_iff_false, Qle_bool_iff.
  split; [apply Qnot_le_lt | apply Qlt_not_le].
Qed.

Lemma lt_false (a b : Q) : Js.lt a b = false <-> (b <= a)%Q.
Proof.
  unfold Js.lt. rewrite negb_false_iff. apply Qle_bool_iff.
Qed.

Lemma gt_spec (a b : Q) : Js.gt a b = true <-> (b < a)%Q.
Proof. apply lt_spec. Qed.

Lemma gt_false (a b : Q) : Js.gt a b = false <-> (a <= b)%Q.
Proof. apply lt_false. Qed.

End JsFacts.

(** ** Collision test *)

Module CollisionProps.

Import Game CollisionSpec.

Lemma boxes_collide_spec (a b : Hitbox) :
  boxes_collide a b = true <->
  (hx a <= hx b + hw b /\ hx b <= hx a + hw a /\
   hy a <= hy b + hh b /\ hy b <= hy a + hh a)%Q.
Proof.
  unfold boxes_collide.
  rewrite negb_true_iff, !orb_false_iff.
  rewrite !JsFacts.gt_false, !JsFacts.lt_false. tauto.
Qed.

Lemma Qmin_lower (a b c : Q) : (c <= Qmin a b <-> c <= a /\ c <= b)%Q.
Proof.
  destruct (Q.min_spec a b) as [[H E] | [H E]]; rewrite E; split;
    intros; try split; try tauto; lra.
Qed.

Lemma Qmax_upper (a b c : Q) : (Qmax a b <= c <-> a <= c /\ b <= c)%Q.
Proof.
  destruct (Q.max_spec a b) as [[H E] | [H E]]; rewrite E; split;
    intros; try split; try tauto; lra.
Qed.

Lemma overlap_nonneg_spec (a b : Hitbox) :
  well_formed a -> well_formed b ->
  overlap_nonneg a b <->
  (hx a <= hx b + hw b /\ hx b <= hx a + hw a /\
   hy a <= hy b + hh b /\ hy b <= hy a + hh a)%Q.
Proof.
  intros [Hwa Hha] [Hwb Hhb]. unfold overlap_nonneg, overlap_x, overlap_y.
  assert (Hsub : forall p q : Q, (0 <= p - q <-> q <= p)%Q)
    by (intros; split; intros; lra).
  rewrite !Hsub, !Qmin_lower, !Qmax_upper.
  split; intros; repeat split; try tauto; lra.
Qed.

(** C2, as stated, fails: two entities built at (0,0) and (16,0) have the
    boxes [0,0,16,16] and [16,0,16,16], which share one edge and overlap
    with extent zero on the x axis, and the test answers true. *)
Lemma C2_touching_boxes_collide :
  let a := Entity_new (0, 0)%Q (Sprite_new "a") in
  let b := Entity_new (16, 0)%Q (Sprite_new "b") in
  isCollideWith a b = true /\
  (overlap_x (hitbox a) (hitbox b) == 0)%Q /\
  ~ overlap_positive (hitbox a) (hitbox b).
Proof.
  cbv zeta. split; [reflexivity |]. split; [reflexivity |].
  intros [Hx _]. revert Hx. vm_compute. discriminate.
Qed.

(** C2, amended: for boxes of non-negative width and height the
    collision test answers true exactly when the boxes overlap with an
    extent that is at least zero on both axes, so boxes that share an
    edge do collide. *)
Theorem C2_collide_iff_closed_overlap (a b : Entity) :
  well_formed (hitbox a) -> well_formed (hitbox b) ->
  isCollideWith a b = true <-> overlap_nonneg (hitbox a) (hitbox b).
Proof.
  intros Ha Hb. unfold isCollideWith.
  rewrite boxes_collide_spec, overlap_nonneg_spec by assumption.
  reflexivity.
Qed.

Lemma C2_collide_iff_closed_overlap_witness :
  let a := Entity_new (0, 0)%Q (Sprite_new "a") in
  let b := Entity_new (16, 0)%Q (Sprite_new "b") in
  isCollideWith a b = true <-> overlap_nonneg (hitbox a) (hitbox b).
Proof.
  cbv zeta. apply C2_collide_iff_closed_overlap; split; vm_compute; discriminate.
Defined.

(** C9: the collision test is symmetric, whatever the two hitboxes. *)
Theorem C9_isCollideWith_symmetric (a b : Entity) :
  isCollideWith a b = isCollideWith b a.
Proof.
  unfold isCollideWith, boxes_collide, Js.gt. f_equal.
  destruct (Js.lt (hx (hitbox b) + hw (hitbox b)) (hx (hitbox a))),
           (Js.lt (hx (hitbox a) + hw (hitbox a)) (hx (hitbox b))),
           (Js.lt (hy (hitbox b) + hh (hitbox b)) (hy (hitbox a))),
           (Js.lt (hy (hitbox a) + hh (hitbox a)) (hy (hitbox b)));
    reflexivity.
Qed.

End CollisionProps.

(** ** Per-frame update of an entity *)

Module UpdateProps.

Import Game.

Lemma checkBounds_frame (cw : Q) (e : Entity) :
  vel (checkBounds cw e) = vel e /\
  hitbox (checkBounds cw e) = hitbox e /\
  sprite (checkBounds cw e) = sprite e /\
  dying (checkBounds cw e) = dying e /\
  isDestroyed (checkBounds cw e) = isDestroyed e /\
  snd (pos (checkBounds cw e)) = snd (pos e).
Proof.
  unfold checkBounds.
  destruct (Js.lt (fst (pos e)) 0); [cbn; tauto |].
  destruct (Js.gt (fst (pos e)) (cw - hw (hitbox e))); cbn; tauto.
Qed.

Lemma checkBounds_x (cw : Q) (e : Entity) :
  let x := fst (pos e) in
  let x' := fst (pos (checkBounds cw e)) in
  ((x < 0)%Q -> x' = 0%Q) /\
  ((0 <= x)%Q -> (cw - hw (hitbox e) < x)%Q -> x' = (cw - hw (hitbox e))%Q) /\
  ((0 <= x)%Q -> (x <= cw - hw (hitbox e))%Q -> x' = x).
Proof.
  cbv zeta. unfold checkBounds.
  destruct (Js.lt (fst (pos e)) 0) eqn:Hlt.
  - apply JsFacts.lt_spec in Hlt. cbn.
    repeat split; intros; try reflexivity; lra.
  - apply JsFacts.lt_false in Hlt.
    destruct (Js.gt (fst (pos e)) (cw - hw (hitbox e))) eqn:Hgt.
    + apply JsFacts.gt_spec in Hgt. cbn.
      repeat split; intros; try reflexivity; lra.
    + apply JsFacts.gt_false in Hgt.
      repeat split; intros; try reflexivity; lra.
Qed.

Lemma Entity_update_hitbox (cw : Q) (e : Entity) :
  hitbox (Entity_update cw e) = hitbox e.
Proof.
  unfold Entity_update. cbv zeta.
  match goal with
  | |- hitbox (checkBounds cw ?e2) = _ =>
      destruct (checkBounds_frame cw e2) as (_ & -> & _)
  end.
  reflexivity.
Qed.

Lemma iter_update_hitbox (cw : Q) (n : nat) (e : Entity) :
  hitbox (Nat.iter n (Entity_update cw) e) = hitbox e.
Proof.
  induction n as [| n IH]; [reflexivity |].
  rewrite Nat.iter_succ, Entity_update_hitbox. exact IH.
Qed.

(** C10: the base-class update leaves velocity, hitbox, sprite and dying
    state as they were; it adds the velocity to the position on each
    axis and then clamps the x coordinate below at 0 and above at
    [canvas.width - hitbox width], which keeps it in that range when the
    range is not empty; the y coordinate is not clamped.  The hitbox so
    keeps the value it had, over any number of frames. *)
Theorem C10_Entity_update_frame (canvas_width : Q) (e : Entity) :
  let e' := Entity_update canvas_width e in
  let x := (fst (pos e) + fst (vel e))%Q in
  let right := (canvas_width - hw (hitbox e))%Q in
  vel e' = vel e /\
  hitbox e' = hitbox e /\
  sprite e' = sprite e /\
  dying e' = dying e /\
  isDestroyed e' = isDestroyed e /\
  snd (pos e') = (snd (pos e) + snd (vel e))%Q /\
  ((x < 0)%Q -> fst (pos e') = 0%Q) /\
  ((0 <= x)%Q -> (right < x)%Q -> fst (pos e') = right) /\
  ((0 <= x)%Q -> (x <= right)%Q -> fst (pos e') = x) /\
  ((0 <= right)%Q -> (0 <= fst (pos e') <= right)%Q) /\
  (forall n : nat, hitbox (Nat.iter n (Entity_update canvas_width) e) = hitbox e).
Proof.
  cbv zeta. unfold Entity_update.
  set (e2 := set_pos _ _).
  destruct (checkBounds_frame canvas_width e2) as (Hv & Hh & Hs & Hd & Hi & Hy).
  destruct (checkBounds_x canvas_width e2) as (Hx1 & Hx2 & Hx3).
  change (hitbox e2) with (hitbox e) in *.
  change (fst (pos e2)) with (fst (pos e) + fst (vel e))%Q in *.
  repeat match goal with |- _ /\ _ => split end; try assumption.
  - intros Hr.
    destruct (Qlt_le_dec (fst (pos e) + fst (vel e)) 0) as [Hneg | Hpos].
    + rewrite (Hx1 Hneg). split; lra.
    + destruct (Qlt_le_dec (canvas_width - hw (hitbox e))
                  (fst (pos e) + fst (vel e))) as [Hbig | Hin].
      * rewrite (Hx2 Hpos Hbig). split; lra.
      * rewrite (Hx3 Hpos Hin). split; assumption.
  - intros n. apply (iter_update_hitbox canvas_width n e).
Qed.

(** An entity built at (630, 20) and moving right by 5 on a canvas 640
    wide: the update stops it at 624 = 640 - 16. *)
Lemma C10_Entity_update_frame_witness :
  let e := set_vel (Entity_new (630, 20)%Q (Sprite_new "e")) (5, 0)%Q in
  let e' := Entity_update 640 e in
  fst (pos e') = (640 - 16)%Q /\ (0 <= fst (pos e') <= 640 - 16)%Q /\
  hitbox e' = hitbox e.
Proof.
  cbv zeta.
  pose proof (C10_Entity_update_frame 640
                (set_vel (Entity_new (630, 20)%Q (Sprite_new "e")) (5, 0)%Q))
    as H.
  cbv zeta in H.
  destruct H as (_ & Hh & _ & _ & _ & _ & _ & Hclamp & _ & Hrange & _).
  split; [| split].
  - apply Hclamp; vm_compute; [discriminate | reflexivity].
  - apply Hrange. vm_compute. discriminate.
  - exact Hh.
Defined.

End UpdateProps.

(** ** The hitbox over the frames *)

Module HitboxProps.

Import Game HitboxSpec.

Lemma Player_update_hitbox (cw : Q) (p : Player) :
  hitbox (p_base (Player_update cw p)) = hitbox (p_base p).
Proof.
  unfold Player_update. cbv zeta.
  match goal with |- context [if ?c then _ else _] => destruct c end;
    cbn; apply UpdateProps.Entity_update_hitbox.
Qed.

Lemma apply_hitbox (cw : Q) (p : Player) (c : Command) :
  hitbox (p_base (apply cw p c)) = hitbox (p_base p).
Proof.
  destruct c; cbn; try reflexivity. apply Player_update_hitbox.
Qed.

Lemma commands_hitbox (cw : Q) (cmds : list Command) (p : Player) :
  hitbox (p_base (fold_left (apply cw) cmds p)) = hitbox (p_base p).
Proof.
  revert p. induction cmds as [| c cmds IH]; intros p; [reflexivity |].
  cbn [fold_left]. rewrite IH. apply apply_hitbox.
Qed.

Lemma Enemy_frames_hitbox (cw : Q) (n : nat) (e : Enemy) :
  hitbox (e_base (Nat.iter n (Enemy_update cw) e)) = hitbox (e_base e).
Proof.
  induction n as [| n IH]; [reflexivity |].
  rewrite Nat.iter_succ. unfold Enemy_update at 1. cbn [e_base].
  rewrite UpdateProps.Entity_update_hitbox. exact IH.
Qed.

Lemma PowerUp_frames_hitbox (cw : Q) (n : nat) (u : PowerUp) :
  hitbox (u_base (Nat.iter n (PowerUp_update cw) u)) = hitbox (u_base u).
Proof.
  induction n as [| n IH]; [reflexivity |].
  rewrite Nat.iter_succ. unfold PowerUp_update at 1. cbn [u_base].
  rewrite UpdateProps.Entity_update_hitbox. exact IH.
Qed.

End HitboxProps.

(** ** The controller *)

Module ControllerProps.

Import Game ControllerSpec.

Ltac run_monad :=
  unfold log, record, update_game, mbind, M_bind, mret, M_ret, get, modify, throw.

(** Names the program calls without any class declaring them. *)
Lemma undeclared_methods :
  has_method CPlayer "takeDamage" = false /\
  has_method CPlayer "setPosition" = false /\
  has_method CEnemy "reset" = false /\
  has_method CPowerUp "reset" = false /\
  has_method CDevGameMaker "getRenderingContext" = false /\
  has_method CEntity "emit" = false /\
  has_method CPlayer "emit" = false /\
  has_method CEnemy "emit" = false /\
  has_method CPowerUp "emit" = false.
Proof. vm_compute. tauto. Qed.

Lemma emit_game (event : string) (w : World) :
  game (fst (emit event w)) = game w /\
  frames (fst (emit event w)) = frames w /\
  timeouts (fst (emit event w)) = timeouts w.
Proof.
  unfold emit. run_monad.
  destruct (eventListeners (game w) !! event); [cbn; tauto |].
  destruct (Js.inherited event); cbn; tauto.
Qed.

Lemma emit_normal (event : string) (w : World) :
  Js.inherited event = false -> snd (emit event w) = Normal tt.
Proof.
  intros H. unfold emit. run_monad.
  destruct (eventListeners (game w) !! event); [reflexivity |].
  rewrite H. reflexivity.
Qed.

Lemma takeDamage_throws {S : Type} :
  @call_undeclared S CPlayer "takeDamage"
  = throw (Js.TypeError "takeDamage is not a function").
Proof. reflexivity. Qed.

(** A player that meets a live enemy while vulnerable: the notification
    goes out and the call of [takeDamage] throws. *)
Lemma enemy_hit_run (w : World) (i : nat) (enemy : Enemy) :
  enemies (game w) !! i = Some enemy ->
  isCollideWith (p_base (player (game w))) (e_base enemy) = true ->
  dying (e_base enemy) = false ->
  invincibility (player (game w)) = false ->
  checkPlayerCollisionWithEnemy i w
  = (fst (emit "playerHit" w),
     Throw (Js.TypeError "takeDamage is not a function")).
Proof.
  intros Hi Hc Hd Hv. unfold checkPlayerCollisionWithEnemy.
  rewrite takeDamage_throws. run_monad. cbv beta iota.
  rewrite Hi, Hc, Hd, Hv. cbn [negb andb].
  pose proof (emit_normal "playerHit" w eq_refl) as Hn.
  destruct (emit "playerHit" w) as [w1 c1]. cbn [fst snd] in *. subst c1.
  reflexivity.
Qed.

Lemma enemy_hit_throws (w : World) (i : nat) (enemy : Enemy) :
  enemies (game w) !! i = Some enemy ->
  isCollideWith (p_base (player (game w))) (e_base enemy) = true ->
  dying (e_base enemy) = false ->
  invincibility (player (game w)) = false ->
  snd (checkPlayerCollisionWithEnemy i w)
    = Throw (Js.TypeError "takeDamage is not a function") /\
  game (fst (checkPlayerCollisionWithEnemy i w)) = game w.
Proof.
  intros Hi Hc Hd Hv. rewrite (enemy_hit_run w i enemy Hi Hc Hd Hv).
  split; [reflexivity | apply emit_game].
Qed.

(** Whatever the enemy, the collision check leaves the controller's
    fields alone. *)
Lemma enemy_check_keeps_game (w : World) (i : nat) :
  game (fst (checkPlayerCollisionWithEnemy i w)) = game w.
Proof.
  unfold checkPlayerCollisionWithEnemy.
  rewrite takeDamage_throws. run_monad. cbv beta iota.
  destruct (enemies (game w) !! i) as [enemy |]; [| reflexivity].
  destruct (isCollideWith _ _ && _ && _); [| reflexivity].
  pose proof (emit_game "playerHit" w) as (Hg & _).
  destruct (emit "playerHit" w) as [w1 [[] | e]]; cbn [fst] in *; exact Hg.
Qed.

(** Had the call of [takeDamage] returned, the statements after it would
    take exactly one life and, with lives left, end the method there. *)
Lemma after_takeDamage_takes_one_life (w : World) :
  (1 < playerLives (game w))%Z ->
  snd (after_takeDamage w) = Normal tt /\
  playerLives (game (fst (after_takeDamage w))) = (playerLives (game w) - 1)%Z.
Proof.
  intros H. unfold after_takeDamage. run_monad. cbv beta iota. cbn.
  destruct (Z.leb_spec (playerLives (game w) - 1) 0) as [Hle | Hgt]; [lia |].
  split; reflexivity.
Qed.

(** [restartGame()] writes the lives and the score and then throws at
    [this.player.setPosition]: the player, the pause flag and the
    collections are as they were. *)
Lemma restartGame_throws (w : World) :
  let w' := fst (restartGame w) in
  snd (restartGame w) = Throw (Js.TypeError "setPosition is not a function") /\
  playerLives (game w') = 3%Z /\ score (game w') = 0%Z /\
  player (game w') = player (game w) /\
  isPaused (game w') = isPaused (game w) /\
  enemies (game w') = enemies (game w) /\
  powerUps (game w') = powerUps (game w) /\
  frames w' = frames w /\ console w' = console w.
Proof. cbv zeta. unfold restartGame. run_monad. cbn. tauto. Qed.

(** With the last life, they reach [restartGame], which throws. *)
Lemma after_takeDamage_last_life (w : World) :
  playerLives (game w) = 1%Z ->
  snd (after_takeDamage w) = Throw (Js.TypeError "setPosition is not a function") /\
  playerLives (game (fst (after_takeDamage w))) = 3%Z /\
  player (game (fst (after_takeDamage w))) = player (game w).
Proof.
  intros H. unfold after_takeDamage. run_monad. cbv beta iota.
  cbn [game on_game playerLives set_playerLives]. rewrite H.
  change (1 - 1 <=? 0)%Z with true. cbv beta iota.
  match goal with
  | |- context [emit "gameOver" ?w0] =>
      pose proof (emit_game "gameOver" w0) as (Hg & _);
      pose proof (emit_normal "gameOver" w0 eq_refl) as Hn;
      destruct (emit "gameOver" w0) as [w1 c1]
  end.
  cbn [fst snd] in *. subst c1.
  match goal with
  | |- context [restartGame ?w0] =>
      pose proof (restartGame_throws w0) as (Hr & Hl & _ & Hp & _);
      destruct (restartGame w0) as [w2 c2]
  end.
  cbn [fst snd] in *. subst c2. cbn [game] in *.
  rewrite Hl, Hp, Hg. cbn. tauto.
Qed.

(** C3 at a failing input: a fresh controller (3 lives, player at
    (50, 100), not invincible) and one live enemy built at (50, 100).
    The two collide; the check throws at [takeDamage] and the frame ends
    with 3 lives, not 2, and with no further frame queued.  A restart,
    asked for directly, sets lives and score and throws at
    [setPosition], before the position and the pause flag are written:
    a paused controller whose player has moved stays paused and keeps
    the moved position. *)
Theorem C3_enemy_hit_leaves_lives :
  let w := world_with_enemy in
  let hit := checkPlayerCollisionWithEnemy 0 w in
  let after_frame := step 640 AnimationFrame w in
  let moved :=
    on_game (set_isPaused true)
      (on_game (fun g => set_player (on_base (fun e => set_pos e (70, 100)%Q) (player g)) g) w) in
  (exists enemy, enemies (game w) !! 0%nat = Some enemy /\
      isCollideWith (p_base (player (game w))) (e_base enemy) = true /\
      dying (e_base enemy) = false) /\
  invincibility (player (game w)) = false /\
  playerLives (game w) = 3%Z /\
  snd hit = Throw (Js.TypeError "takeDamage is not a function") /\
  playerLives (game (fst hit)) = 3%Z /\
  playerLives (game after_frame) = 3%Z /\
  frames after_frame = 0%nat /\
  snd (restartGame moved) = Throw (Js.TypeError "setPosition is not a function") /\
  pos (p_base (player (game (fst (restartGame moved))))) = (70, 100)%Q /\
  isPaused (game (fst (restartGame moved))) = true.
Proof.
  cbv zeta. split.
  - eexists. split; [reflexivity |]. split; reflexivity.
  - repeat match goal with |- _ /\ _ => split end; vm_compute; reflexivity.
Qed.

(** *** Destroying and sweeping *)


Lemma destroy_isDestroyed (c : Class) (e : Entity) :
  isDestroyed (fst (destroy c e)) = isDestroyed e.
Proof.
  unfold destroy, call_undeclared. run_monad.
  destruct (has_method c "emit"); reflexivity.
Qed.

Lemma filter_all {A : Type} (f : A -> bool) (l : list A) :
  Forall (fun a => f a = true) l -> List.filter f l = l.
Proof.
  induction 1 as [| a l Ha _ IH]; [reflexivity |].
  cbn. now rewrite Ha, IH.
Qed.

(** The sweep looks at [isDestroyed] only: while no entity carries that
    property, it removes nothing, dying or not. *)
Lemma cleanup_keeps_unmarked (w : World) :
  Forall (fun enemy => isDestroyed (e_base enemy) = None) (enemies (game w)) ->
  Forall (fun powerUp => isDestroyed (u_base powerUp) = None) (powerUps (game w)) ->
  cleanup w = (w, Normal tt).
Proof.
  intros He Hu. destruct w as [g f t c]. destruct g. cbn in He, Hu.
  unfold cleanup. run_monad. cbv beta iota. unfold on_game. cbn.
  unfold set_powerUps, set_enemies. cbn.
  rewrite (filter_all (fun enemy => negb (is_destroyed (e_base enemy)))).
  - rewrite (filter_all (fun powerUp => negb (is_destroyed (u_base powerUp)))).
    + reflexivity.
    + eapply Forall_impl; [exact Hu |]. cbn. intros u H.
      unfold is_destroyed. now rewrite H.
  - eapply Forall_impl; [exact He |]. cbn. intros e H.
    unfold is_destroyed. now rewrite H.
Qed.

(** C4 at a failing input: a controller with one power-up built where
    the player stands.  The frame's collision pass collects it and calls
    [destroy()] on it, which sets [dying]; the sweep that follows keeps
    it in [powerUps], because it tests [isDestroyed], which nothing
    sets.  (The frame itself ends at the error [destroy()] throws, with
    the power-up still in the collection.) *)
Theorem C4_destroyed_power_up_survives_sweep :
  let w := world_with_powerUp in
  let collected := fst (checkPlayerCollisionWithPowerUp 0 w) in
  let swept := fst (cleanup collected) in
  let after_frame := step 640 AnimationFrame w in
  (dying ∘ u_base) <$> powerUps (game w) = [false] /\
  (dying ∘ u_base) <$> powerUps (game collected) = [true] /\
  powerUps (game swept) = powerUps (game collected) /\
  (dying ∘ u_base) <$> powerUps (game after_frame) = [true].
Proof. cbv zeta. repeat split; vm_compute; reflexivity. Qed.

(** C7 at a failing input: [destroy()] on a power-up built at (50, 100),
    in a controller where a listener is subscribed to "destroyed".  The
    call sets [dying] and then throws, because no entity class declares
    [emit]; the listener is not invoked, and the next sweep keeps the
    power-up. *)
Theorem C7_destroy_throws_unnotified :
  let w := world_with_powerUp in
  let powerUp := PowerUp_new (50, 100)%Q "speed" in
  let call := on_powerUp 0 powerUp (destroy CPowerUp) w in
  eventListeners (game w) !! "destroyed" = Some [7%nat] /\
  powerUps (game w) = [powerUp] /\
  snd call = Throw (Js.TypeError "emit is not a function") /\
  powerUps (game (fst call)) = [mkPowerUp (set_dying (u_base powerUp) true) "speed"] /\
  console (fst call) = [] /\
  powerUps (game (fst (cleanup (fst call)))) = powerUps (game (fst call)).
Proof. cbv zeta. repeat split; vm_compute; reflexivity. Qed.

(** *** Pausing *)

Lemma gameLoop_paused (cw : Q) (w : World) :
  isPaused (game w) = true -> gameLoop cw w = (w, Normal tt).
Proof. intros H. unfold gameLoop. run_monad. now rewrite H. Qed.

Lemma handleKeyPress_paused (cw : Q) (code : string) (w : World) :
  isPaused (game w) = true -> handleKeyPress code w = (w, Normal tt).
Proof. intros H. unfold handleKeyPress. run_monad. now rewrite H. Qed.

Lemma step_paused (cw : Q) (i : Input) (w : World) :
  isPaused (game w) = true -> frames w = 0%nat ->
  isPaused (game (step cw i w)) = true /\ frames (step cw i w) = 0%nat.
Proof.
  intros Hp Hf. destruct i as [code | |]; cbn [step].
  - unfold run_callback. rewrite (handleKeyPress_paused cw code w Hp). auto.
  - unfold animation_frame. rewrite Hf. cbn. auto.
  - unfold timeout_fired. destruct (timeouts w); cbn; auto.
Qed.

(** Once the controller is paused and the queued frame has run, it is
    paused for good: whatever keys are pressed and whatever the host
    delivers, the flag stays set and no frame is queued. *)
Lemma paused_for_good (cw : Q) (inputs : list Input) (w : World) :
  isPaused (game w) = true -> frames w = 0%nat ->
  isPaused (game (run cw inputs w)) = true /\ frames (run cw inputs w) = 0%nat.
Proof.
  revert w. induction inputs as [| i inputs IH]; intros w Hp Hf; [auto |].
  cbn [run fold_left].
  destruct (step_paused cw i w Hp Hf) as [Hp' Hf'].
  apply (IH _ Hp' Hf').
Qed.

(** C6 at a failing input: on a fresh controller the page presses
    Escape (the game pauses), the queued frame runs (paused, it does
    nothing and queues no successor), and the page presses Escape
    again.  The second press is dropped by the guard at the head of
    [handleKeyPress]: the controller is still paused and no tick is
    queued.  [togglePause()] called directly does clear the flag, and
    still queues no tick. *)
Theorem C6_second_escape_is_dropped :
  let paused := run 640 [KeyDown "Escape"; AnimationFrame] DevGameMaker_new in
  let w := step 640 (KeyDown "Escape") paused in
  isPaused (game DevGameMaker_new) = false /\
  frames DevGameMaker_new = 1%nat /\
  isPaused (game paused) = true /\
  isPaused (game w) = true /\
  frames w = 0%nat /\
  isPaused (game (fst (togglePause paused))) = false /\
  frames (fst (togglePause paused)) = 0%nat.
Proof. cbv zeta. repeat split; vm_compute; reflexivity. Qed.

Lemma stable_refl (w : World) : stable w w.
Proof. unfold stable. repeat split; reflexivity. Qed.

Lemma stable_trans (w1 w2 w3 : World) :
  stable w1 w2 -> stable w2 w3 -> stable w1 w3.
Proof.
  intros (Hf & Hp & He & Hu) (Hf' & Hp' & He' & Hu').
  unfold stable. repeat split; try congruence; etrans; eassumption.
Qed.

Lemma steady_ret {A : Type} (a : A) : steady (mret a).
Proof. intros w. apply stable_refl. Qed.

Lemma steady_throw {A : Type} (e : Js.Error) : steady (@throw World A e).
Proof. intros w. apply stable_refl. Qed.

Lemma steady_bind {A B : Type} (m : M World A) (f : A -> M World B) :
  steady m -> (forall a, steady (f a)) -> steady (m ≫= f).
Proof.
  intros Hm Hf w. unfold mbind, M_bind.
  specialize (Hm w). destruct (m w) as [w' [a | e]]; cbn [fst] in *.
  - eapply stable_trans; [exact Hm | apply Hf].
  - exact Hm.
Qed.

Lemma steady_get_bind {B : Type} (f : World -> M World B) :
  (forall w, steady (f w)) -> steady (get ≫= f).
Proof. intros Hf. apply steady_bind; [intros w; apply stable_refl | exact Hf]. Qed.

Lemma steady_modify (f : World -> World) :
  (forall w, stable w (f w)) -> steady (modify f).
Proof. intros Hf w. apply Hf. Qed.

Lemma steady_call_undeclared (c : Class) (m : string) :
  steady (call_undeclared c m).
Proof.
  unfold call_undeclared.
  destruct (has_method c m); [apply steady_ret | apply steady_throw].
Qed.

Lemma steady_forEach_from (body : nat -> M World unit) (n i : nat) :
  (forall j, steady (body j)) -> steady (forEach_from n i body).
Proof.
  intros Hb. revert i. induction n as [| n IH]; intros i; cbn [forEach_from].
  - apply steady_ret.
  - apply steady_bind; [apply Hb | intros _; apply IH].
Qed.

Lemma steady_forEach (body : nat -> M World unit) (n : nat) :
  (forall j, steady (body j)) -> steady (forEach n body).
Proof. apply steady_forEach_from. Qed.

Ltac stable_by_fields :=
  unfold stable, enemy_boxes, powerUp_boxes; cbn; repeat split; reflexivity.

Lemma steady_record (ev : list Event) : steady (record ev).
Proof. apply steady_modify. intros w. stable_by_fields. Qed.

Lemma steady_log (msg : string) : steady (log msg).
Proof. apply steady_record. Qed.

Lemma steady_setTimeout (d : Q) : steady (setTimeout d).
Proof. apply steady_modify. intros w. stable_by_fields. Qed.

(** A write to the controller's fields that keeps the entities' boxes. *)
Lemma steady_update_game (f : DevGameMaker -> DevGameMaker) :
  (forall g, hitbox (p_base (player (f g))) = hitbox (p_base (player g))) ->
  (forall g, ((hitbox ∘ e_base) <$> enemies (f g))
               `sublist_of` ((hitbox ∘ e_base) <$> enemies g)) ->
  (forall g, ((hitbox ∘ u_base) <$> powerUps (f g))
               `sublist_of` ((hitbox ∘ u_base) <$> powerUps g)) ->
  steady (update_game f).
Proof.
  intros Hp He Hu. apply steady_modify. intros w.
  unfold stable, enemy_boxes, powerUp_boxes, on_game. cbn.
  repeat split; auto.
Qed.

Lemma steady_emit (event : string) : steady (emit event).
Proof.
  unfold emit. apply steady_get_bind. intros w.
  destruct (eventListeners (game w) !! event); [apply steady_record |].
  destruct (Js.inherited event); [apply steady_throw | apply steady_ret].
Qed.

Create HintDb steady.

#[local] Hint Resolve steady_ret steady_throw steady_call_undeclared
  steady_record steady_log steady_setTimeout steady_emit
  steady_forEach : steady.

Ltac steady_step :=
  match goal with
  | |- steady (get ≫= _) => apply steady_get_bind; intros ?
  | |- steady (_ ≫= _) => apply steady_bind; [| intros ?]
  | |- steady (update_game _) =>
      apply steady_update_game; intros; cbn; reflexivity
  | |- steady _ => solve [auto with steady]
  end.

Lemma steady_togglePause : steady togglePause.
Proof.
  unfold togglePause. repeat steady_step.
  match goal with |- context [if ?c then _ else _] => destruct c end;
    auto with steady.
Qed.

Lemma steady_restartGame : steady restartGame.
Proof.
  unfold restartGame. repeat steady_step.
  match goal with |- steady (match ?c with _ => _ end) => destruct c end;
    auto with steady.
Qed.

Lemma steady_after_takeDamage : steady after_takeDamage.
Proof.
  unfold after_takeDamage. repeat steady_step.
  match goal with |- steady (if ?c then _ else _) => destruct c end;
    [| apply steady_ret].
  repeat steady_step. apply steady_restartGame.
Qed.

Lemma steady_checkPlayerCollisionWithEnemy (i : nat) :
  steady (checkPlayerCollisionWithEnemy i).
Proof.
  unfold checkPlayerCollisionWithEnemy. apply steady_get_bind. intros w.
  destruct (enemies (game w) !! i) as [enemy |]; [| apply steady_ret].
  destruct (isCollideWith _ _ && _ && _); [| apply steady_ret].
  repeat steady_step. apply steady_after_takeDamage.
Qed.

Lemma steady_activate (powerUp : PowerUp) : steady (activate powerUp).
Proof.
  unfold activate.
  destruct (String.eqb (type powerUp) "speed"); [apply steady_log |].
  destruct (String.eqb (type powerUp) "invincibility"); [| apply steady_ret].
  repeat steady_step.
Qed.

Lemma destroy_hitbox (c : Class) (e : Entity) :
  hitbox (fst (destroy c e)) = hitbox e.
Proof.
  unfold destroy, call_undeclared. run_monad.
  destruct (has_method c "emit"); reflexivity.
Qed.

Lemma activate_powerUps (powerUp : PowerUp) (w : World) :
  powerUps (game (fst (activate powerUp w))) = powerUps (game w).
Proof.
  unfold activate.
  destruct (String.eqb (type powerUp) "speed"); [reflexivity |].
  destruct (String.eqb (type powerUp) "invincibility"); reflexivity.
Qed.

Lemma steady_checkPlayerCollisionWithPowerUp (i : nat) :
  steady (checkPlayerCollisionWithPowerUp i).
Proof.
  intros w. unfold checkPlayerCollisionWithPowerUp.
  unfold mbind at 1, M_bind at 1, get at 1. cbv beta iota.
  destruct (powerUps (game w) !! i) as [powerUp |] eqn:Hi; [| apply stable_refl].
  destruct (isCollideWith _ _); [| apply stable_refl].
  unfold mbind, M_bind.
  pose proof (steady_emit "playerPowerUp" w) as Hs1.
  pose proof (emit_game "playerPowerUp" w) as (Hg1 & _).
  destruct (emit "playerPowerUp" w) as [w1 [[] | e1]]; cbn [fst] in *;
    [| exact Hs1].
  pose proof (steady_activate powerUp w1) as Hs2.
  pose proof (activate_powerUps powerUp w1) as Hu2.
  destruct (activate powerUp w1) as [w2 [[] | e2]]; cbn [fst] in *;
    [| eapply stable_trans; eassumption].
  eapply stable_trans; [exact Hs1 |]. eapply stable_trans; [exact Hs2 |].
  unfold on_powerUp.
  pose proof (destroy_hitbox CPowerUp (u_base powerUp)) as Hh.
  destruct (destroy CPowerUp (u_base powerUp)) as [e' c]. cbn [fst] in *.
  unfold stable, enemy_boxes, powerUp_boxes, on_game. cbn.
  repeat split; try reflexivity.
  rewrite list_fmap_insert. cbn. rewrite Hh.
  rewrite list_insert_id; [reflexivity |].
  rewrite list_lookup_fmap, Hu2, Hg1, Hi. reflexivity.
Qed.

Lemma steady_handleCollisions : steady handleCollisions.
Proof.
  unfold handleCollisions. repeat steady_step.
  - apply steady_forEach. apply steady_checkPlayerCollisionWithEnemy.
  - apply steady_forEach. apply steady_checkPlayerCollisionWithPowerUp.
Qed.

Lemma filter_sublist {A : Type} (f : A -> bool) (l : list A) :
  List.filter f l `sublist_of` l.
Proof.
  induction l as [| a l IH]; cbn; [constructor |].
  destruct (f a); now constructor.
Qed.

Lemma steady_cleanup : steady cleanup.
Proof.
  unfold cleanup. apply steady_bind; [| intros _].
  - apply steady_update_game; intros g; cbn; try reflexivity.
    apply fmap_sublist, filter_sublist.
  - apply steady_update_game; intros g; cbn; try reflexivity.
    apply fmap_sublist, filter_sublist.
Qed.

Lemma renderEntities_throws (w : World) :
  renderEntities w
  = (w, Throw (Js.TypeError "getRenderingContext is not a function")).
Proof. reflexivity. Qed.

Lemma steady_updateEntities (cw : Q) : steady (updateEntities cw).
Proof.
  unfold updateEntities. repeat (apply steady_bind; [| intros _]).
  - apply steady_update_game; intros g; cbn; try reflexivity.
    rewrite <- list_fmap_compose.
    erewrite (list_fmap_ext _ (hitbox ∘ e_base)); [reflexivity |].
    intros j e _. cbn. apply UpdateProps.Entity_update_hitbox.
  - apply steady_update_game; intros g; cbn; try reflexivity.
    rewrite <- list_fmap_compose.
    erewrite (list_fmap_ext _ (hitbox ∘ u_base)); [reflexivity |].
    intros j u _. cbn. apply UpdateProps.Entity_update_hitbox.
  - apply steady_update_game; intros g; cbn; try reflexivity.
    apply HitboxProps.Player_update_hitbox.
Qed.

(** A tick that starts while the game runs ends at the error
    [renderEntities] throws: the sweep and the request for the next frame
    are not reached.  Paused or not, [gameLoop] queues nothing. *)
Lemma gameLoop_stable (cw : Q) (w : World) :
  stable w (fst (gameLoop cw w)) /\
  (isPaused (game w) = false -> exists e, snd (gameLoop cw w) = Throw e).
Proof.
  unfold gameLoop, mbind, M_bind, get. cbv beta iota.
  destruct (isPaused (game w)); [split; [apply stable_refl | discriminate] |].
  pose proof (steady_updateEntities cw w) as H1.
  destruct (updateEntities cw w) as [w1 [[] | e1]]; cbn [fst snd] in *.
  - pose proof (steady_handleCollisions w1) as H2.
    destruct (handleCollisions w1) as [w2 [[] | e2]]; cbn [fst snd] in *.
    + rewrite renderEntities_throws. cbn [fst snd].
      split; [exact (stable_trans _ _ _ H1 H2) | intros _; eauto].
    + split; [exact (stable_trans _ _ _ H1 H2) | intros _; eauto].
  - split; [exact H1 | intros _; eauto].
Qed.

(** *** Whole runs *)

Lemma steady_handleKeyPress (code : string) : steady (handleKeyPress code).
Proof.
  unfold handleKeyPress. apply steady_get_bind. intros w.
  destruct (isPaused (game w)); [apply steady_ret |].
  repeat match goal with
         | |- steady (if ?c then _ else _) => destruct c
         end;
    auto using steady_togglePause, steady_restartGame with steady;
    apply steady_update_game; intros; cbn; reflexivity.
Qed.

Lemma run_callback_stable (m : M World unit) (w : World) :
  steady m -> stable w (run_callback m w).
Proof.
  intros Hm. unfold run_callback. specialize (Hm w).
  destruct (m w) as [w' [[] | e]]; cbn [fst] in Hm; [exact Hm |].
  eapply stable_trans; [exact Hm |]. stable_by_fields.
Qed.

Lemma gameLoop_steady (cw : Q) : steady (gameLoop cw).
Proof. intros w. apply gameLoop_stable. Qed.

Lemma iter_gameLoop_stable (cw : Q) (n : nat) (w : World) :
  stable w (Nat.iter n (run_callback (gameLoop cw)) w).
Proof.
  induction n as [| n IH]; [apply stable_refl |].
  rewrite Nat.iter_succ.
  eapply stable_trans; [exact IH |].
  apply run_callback_stable, gameLoop_steady.
Qed.

Lemma step_boxes_kept (cw : Q) (i : Input) (w : World) :
  boxes_kept w (step cw i w).
Proof.
  destruct i as [code | |]; cbn [step].
  - apply (run_callback_stable _ w (steady_handleKeyPress code)).
  - unfold animation_frame.
    match goal with
    | |- boxes_kept _ (Nat.iter ?n _ ?w0) =>
        pose proof (iter_gameLoop_stable cw n w0) as (_ & H)
    end.
    exact H.
  - unfold timeout_fired, boxes_kept, enemy_boxes, powerUp_boxes.
    destruct (timeouts w); cbn; repeat split; reflexivity.
Qed.

Lemma step_frames (cw : Q) (i : Input) (w : World) :
  frames (step cw i w) = match i with AnimationFrame => 0%nat | _ => frames w end.
Proof.
  destruct i as [code | |]; cbn [step].
  - apply (run_callback_stable _ w (steady_handleKeyPress code)).
  - unfold animation_frame.
    match goal with
    | |- frames (Nat.iter ?n _ ?w0) = _ =>
        pose proof (iter_gameLoop_stable cw n w0) as (H & _)
    end.
    exact H.
  - unfold timeout_fired. destruct (timeouts w); reflexivity.
Qed.

(** No frame queues a successor: once a frame has run, the queue of
    [gameLoop] callbacks is empty and stays empty, whatever follows. *)
Lemma first_tick_is_last (cw : Q) (inputs : list Input) (w : World) :
  frames w = 0%nat -> frames (run cw inputs w) = 0%nat.
Proof.
  revert w. induction inputs as [| i inputs IH]; intros w Hw; [exact Hw |].
  change (run cw (i :: inputs) w) with (run cw inputs (step cw i w)).
  apply IH. rewrite step_frames. destruct i; auto.
Qed.

(** No run recomputes a hitbox. *)
Lemma run_boxes_kept (cw : Q) (inputs : list Input) (w : World) :
  boxes_kept w (run cw inputs w).
Proof.
  revert w. induction inputs as [| i inputs IH]; intros w.
  - unfold boxes_kept. repeat split; reflexivity.
  - change (run cw (i :: inputs) w) with (run cw inputs (step cw i w)).
    destruct (step_boxes_kept cw i w) as (Hp & He & Hu).
    destruct (IH (step cw i w)) as (Hp' & He' & Hu').
    unfold boxes_kept. repeat split; etrans; eassumption.
Qed.

End ControllerProps.

(** ** The hitbox and the position *)

Module FrameProps.

Import Game HitboxSpec ControllerSpec.

(** C5, as stated, fails: the page presses ArrowRight and a frame runs;
    at the collision test of that frame the player stands at x = 55
    while its hitbox still starts at x = 50. *)
Lemma C5_hitbox_lags_behind_position :
  let w := run 640 [KeyDown "ArrowRight"; AnimationFrame] DevGameMaker_new in
  let p := p_base (player (game w)) in
  (fst (pos p) == 55)%Q /\ (hx (hitbox p) == 50)%Q /\
  ~ (hx (hitbox p) == fst (pos p))%Q.
Proof.
  cbv zeta. split; [| split]; vm_compute; [reflexivity | reflexivity | discriminate].
Qed.

(** C5, amended: the hitbox is written once, by the constructor, from
    the position the entity is built at, and no frame recomputes it; at
    every collision test its (x, y) is the construction-time position
    and its size is 16 by 16, for an entity, an enemy and a power-up
    after any number of updates and for a player after any sequence of
    move, jump and update steps; and over any run of the controller (key
    presses, frames, timeouts) the player's hitbox is the one it started
    with and the hitboxes of the enemies and of the power-ups are the
    ones they started with, less those of removed entities. *)
Theorem C5_hitbox_fixed_at_construction (canvas_width : Q) (p : Q * Q) :
  (forall (s : Sprite) (n : nat),
      hitbox (Nat.iter n (Entity_update canvas_width) (Entity_new p s))
      = mkHitbox (fst p) (snd p) 16 16) /\
  (forall cmds : list Command,
      hitbox (p_base (fold_left (apply canvas_width) cmds (Player_new p)))
      = mkHitbox (fst p) (snd p) 16 16) /\
  (forall n : nat,
      hitbox (e_base (Nat.iter n (Enemy_update canvas_width) (Enemy_new p)))
      = mkHitbox (fst p) (snd p) 16 16) /\
  (forall (t : string) (n : nat),
      hitbox (u_base (Nat.iter n (PowerUp_update canvas_width) (PowerUp_new p t)))
      = mkHitbox (fst p) (snd p) 16 16) /\
  (forall (inputs : list Input) (w : World),
      boxes_kept w (run canvas_width inputs w)).
Proof.
  repeat match goal with |- _ /\ _ => split end.
  - intros s n. now rewrite UpdateProps.iter_update_hitbox.
  - intros cmds. now rewrite HitboxProps.commands_hitbox.
  - intros n. now rewrite HitboxProps.Enemy_frames_hitbox.
  - intros t n. now rewrite HitboxProps.PowerUp_frames_hitbox.
  - intros inputs w. apply ControllerProps.run_boxes_kept.
Qed.

End FrameProps.

(** ** The sprite manager *)

Module SpriteProps.

Import Sprites SpriteSpec.

Lemma apply_keeps_absent (m : SpriteManager) (op : Op) (t : string) :
  t ∉ registered [op] -> own m !! t = None -> own (apply m op) !! t = None.
Proof.
  intros Hop Hm. destruct op as [t' path w h | t' width height]; cbn.
  - unfold addSprite. destruct (String.eqb t' "__proto__"); cbn; [exact Hm |].
    rewrite lookup_insert_ne; [exact Hm |].
    intros ->. apply Hop. cbn. set_solver.
  - unfold image_loaded. destruct (String.eqb t' "__proto__"); cbn; [exact Hm |].
    rewrite lookup_alter. case_decide; [subst; now rewrite Hm | exact Hm].
Qed.

Lemma apply_keeps_prototype (m : SpriteManager) (op : Op) :
  "__proto__" ∉ registered [op] -> proto m = None -> proto (apply m op) = None.
Proof.
  intros Hop Hm. destruct op as [t' path w h | t' width height]; cbn.
  - unfold addSprite. destruct (String.eqb t' "__proto__") eqn:E; cbn; [| exact Hm].
    apply String.eqb_eq in E. subst. exfalso. apply Hop. cbn. set_solver.
  - unfold image_loaded. destruct (String.eqb t' "__proto__"); cbn;
      [now rewrite Hm | exact Hm].
Qed.

Lemma registered_cons (op : Op) (ops : list Op) (t : string) :
  t ∉ registered (op :: ops) -> (t ∉ registered [op]) /\ (t ∉ registered ops).
Proof.
  unfold registered. destruct op; cbn; rewrite ?not_elem_of_cons, ?elem_of_nil; tauto.
Qed.

Lemma run_keeps_absent (ops : list Op) (m : SpriteManager) (t : string) :
  t ∉ registered ops -> "__proto__" ∉ registered ops ->
  own m !! t = None -> proto m = None ->
  own (fold_left apply ops m) !! t = None /\ proto (fold_left apply ops m) = None.
Proof.
  revert m. induction ops as [| op ops IH]; intros m Ht Hp Hm Hpr; [auto |].
  apply registered_cons in Ht as [Ht1 Ht2].
  apply registered_cons in Hp as [Hp1 Hp2].
  cbn [fold_left]. apply IH; auto using apply_keeps_absent, apply_keeps_prototype.
Qed.

Lemma getSprite_absent (m : SpriteManager) (r : Request) :
  own m !! type r = None -> proto m = None ->
  getSprite m r =
    if Js.inherited (type r)
    then Throw (Js.TypeError "Cannot read properties of undefined (reading 'length')")
    else Normal None.
Proof.
  intros Hm Hp. unfold getSprite, read. rewrite Hm, Hp.
  destruct (Js.inherited (type r)); reflexivity.
Qed.

(** Where the claim of C8 holds and where it does not: on a manager on
    which neither the requested type nor "__proto__" was ever
    registered, [getSprite] returns null for every type that is not a
    property name of [Object.prototype], and throws for those. *)
Lemma getSprite_never_registered (ops : list Op) (r : Request) :
  type r ∉ registered ops -> "__proto__" ∉ registered ops ->
  getSprite (history ops) r =
    if Js.inherited (type r)
    then Throw (Js.TypeError "Cannot read properties of undefined (reading 'length')")
    else Normal None.
Proof.
  intros Ht Hp. apply getSprite_absent;
    apply (run_keeps_absent ops SpriteManager_new (type r)); auto.
Qed.

(** C8 at a failing input: no type "constructor" was ever registered,
    on a new manager or on the example's, and the request
    [{ type: "constructor", item: 0 }] throws a TypeError instead of
    returning null: [this.sprites["constructor"]] is the inherited
    [Object] function, which is truthy and has no [items].  A type that
    is not inherited, such as "water", does get null. *)
Theorem C8_getSprite_inherited_name_throws :
  let request := {| type := "constructor"; item := 0; color := None |} in
  (type request ∉ registered []) /\
  getSprite SpriteManager_new request
    = Throw (Js.TypeError "Cannot read properties of undefined (reading 'length')") /\
  getSprite example_manager request
    = Throw (Js.TypeError "Cannot read properties of undefined (reading 'length')") /\
  getSprite example_manager {| type := "water"; item := 0; color := None |}
    = Normal None.
Proof.
  cbv zeta. split; [set_solver |].
  repeat split; vm_compute; reflexivity.
Qed.

End SpriteProps.

(** ** The tiles of a loaded sheet *)

Module TileProps.

Import Sprites TileSpec.

Lemma lt_ceiling (i : Z) (q : Q) :
  Js.lt (inject_Z i) q = true <-> (i < Qceiling q)%Z.
Proof.
  rewrite JsFacts.lt_spec. split; intros H.
  - rewrite Zlt_Qlt. eapply Qlt_le_trans; [exact H | apply Qle_ceiling].
  - assert (H' : (i <= Qceiling q - 1)%Z) by lia.
    rewrite Zle_Qle in H'.
    eapply Qle_lt_trans; [exact H' | apply Qceiling_lt].
Qed.

Lemma push_items_unfold (fuel : nat) (i : Z) (total cols : Q)
    (tw th : positive) (items : list Item) :
  push_items fuel i total cols tw th items =
  if Js.lt (inject_Z i) total then
    match fuel with
    | O => None
    | S fuel' =>
        push_items fuel' (i + 1) total cols tw th (items ++ [tile cols tw th i])
    end
  else Some items.
Proof. destruct fuel; reflexivity. Qed.

(** The loop ends, with one tile for each integer from [i] below
    [totalItems], whenever the fuel covers them. *)
Lemma push_items_run (total cols : Q) (tw th : positive) (fuel : nat) :
  forall (i : Z) (items : list Item),
    (Qceiling total - i <= Z.of_nat fuel)%Z ->
    push_items fuel i total cols tw th items
    = Some (items ++ (tile cols tw th <$> seqZ i (Qceiling total - i))).
Proof.
  induction fuel as [| fuel IH]; intros i items Hfuel;
    rewrite push_items_unfold;
    destruct (Js.lt (inject_Z i) total) eqn:E.
  - apply lt_ceiling in E. lia.
  - assert (~ (i < Qceiling total)%Z) as Hge
      by (rewrite <- lt_ceiling, E; discriminate).
    rewrite seqZ_nil by lia. now rewrite app_nil_r.
  - apply lt_ceiling in E.
    rewrite IH by lia.
    rewrite (seqZ_cons i (Qceiling total - i)) by lia.
    rewrite fmap_cons, <- app_assoc. cbn [app].
    replace (Z.succ i) with (i + 1)%Z by lia.
    replace (Z.pred (Qceiling total - i)) with (Qceiling total - (i + 1))%Z by lia.
    reflexivity.
  - assert (~ (i < Qceiling total)%Z) as Hge
      by (rewrite <- lt_ceiling, E; discriminate).
    rewrite seqZ_nil by lia. now rewrite app_nil_r.
Qed.

(** The callback of [_createItems] always returns: it pushes one tile for
    each integer below [totalItems], the ceiling of [totalItems] in
    all. *)
Lemma onload_run (W H : N) (tw th : positive) (items : list Item) :
  onload W H tw th items
  = items ++ (tile (inject_Z (Z.of_N W) / inject_Z (Zpos tw)) tw th
                <$> seqZ 0 (Qceiling (totalItems W H tw th))).
Proof.
  unfold onload. cbv zeta.
  rewrite push_items_run.
  - now rewrite Z.sub_0_r.
  - rewrite Z.sub_0_r.
    destruct (Z.le_gt_cases 0 (Qceiling (totalItems W H tw th))); lia.
Qed.

Lemma quotient_exact (c : Z) (tw : positive) :
  (inject_Z (c * Zpos tw) / inject_Z (Zpos tw) == inject_Z c)%Q.
Proof.
  rewrite inject_Z_mult. apply Qdiv_mult_l.
  rewrite (inject_Z_injective (Zpos tw) 0). discriminate.
Qed.

Lemma trunc_quotient (i c : Z) (cols : Q) :
  (cols == inject_Z c)%Q -> (0 <= i)%Z -> (0 < c)%Z ->
  Js.trunc (inject_Z i / cols) = (i / c)%Z /\
  Js.floor (inject_Z i / cols) = (i / c)%Z.
Proof.
  intros Hc Hi Hpos.
  assert (Hq : (inject_Z i / cols == inject_Z i / inject_Z c)%Q)
    by now rewrite Hc.
  assert (Hf : Qfloor (inject_Z i / cols) = (i / c)%Z)
    by (rewrite (Qfloor_comp _ _ Hq); symmetry; apply Zdiv_Qdiv).
  split; [| exact Hf].
  unfold Js.trunc.
  assert (Hle : (0 <= inject_Z i / cols)%Q).
  { rewrite Hq. apply Qle_shift_div_l.
    - change 0%Q with (inject_Z 0). now rewrite <- Zlt_Qlt.
    - rewrite Qmult_0_l. change 0%Q with (inject_Z 0). now rewrite <- Zle_Qle. }
  apply Qle_bool_iff in Hle. now rewrite Hle.
Qed.

(** On an integer number of columns the tile the loop pushes is the
    row-major one. *)
Lemma tile_row_major (i c : Z) (cols : Q) (tw th : positive) :
  (cols == inject_Z c)%Q -> (0 <= i)%Z -> (0 < c)%Z ->
  (x (tile cols tw th i) == inject_Z ((i mod c) * Zpos tw))%Q /\
  (y (tile cols tw th i) == inject_Z ((i / c) * Zpos th))%Q.
Proof.
  intros Hc Hi Hpos.
  destruct (trunc_quotient i c cols Hc Hi Hpos) as [Ht Hf].
  unfold tile, Js.rem. cbn [x y]. rewrite Ht, Hf, Hc. split.
  - rewrite Z.mod_eq by lia.
    rewrite inject_Z_mult. unfold Z.sub.
    rewrite inject_Z_plus, inject_Z_opp, inject_Z_mult. ring.
  - now rewrite inject_Z_mult.
Qed.

(** Where the claim of C1 holds for [_createItems]: on a sheet whose
    width and height are whole multiples of the tile size. *)
Lemma createItems_exact_sheet (W H : N) (tw th : positive) :
  (Z.of_N W mod Zpos tw = 0)%Z -> (Z.of_N H mod Zpos th = 0)%Z ->
  laid_out W H tw th (onload W H tw th []).
Proof.
  intros HW HH.
  set (c := (Z.of_N W / Zpos tw)%Z). set (r := (Z.of_N H / Zpos th)%Z).
  assert (Hc : Z.of_N W = (c * Zpos tw)%Z)
    by (unfold c; rewrite Z.mul_comm; apply Z.div_exact; lia).
  assert (Hr : Z.of_N H = (r * Zpos th)%Z)
    by (unfold r; rewrite Z.mul_comm; apply Z.div_exact; lia).
  assert (Hc0 : (0 <= c)%Z) by (unfold c; apply Z.div_pos; lia).
  assert (Hr0 : (0 <= r)%Z) by (unfold r; apply Z.div_pos; lia).
  assert (Hcols : (inject_Z (Z.of_N W) / inject_Z (Zpos tw) == inject_Z c)%Q)
    by (rewrite Hc; apply quotient_exact).
  assert (Hrows : (inject_Z (Z.of_N H) / inject_Z (Zpos th) == inject_Z r)%Q)
    by (rewrite Hr; apply quotient_exact).
  assert (Htotal : Qceiling (totalItems W H tw th) = (c * r)%Z).
  { unfold totalItems.
    rewrite (Qceiling_comp _ (inject_Z (c * r))).
    - apply Qceiling_Z.
    - rewrite Hcols, Hrows. now rewrite inject_Z_mult. }
  rewrite onload_run, Htotal. cbn [app]. split.
  - rewrite length_fmap, length_seqZ. unfold tile_count. fold c r. nia.
  - intros i t Hi.
    rewrite list_lookup_fmap in Hi.
    destruct (seqZ 0 (c * r) !! i) as [k |] eqn:Hk; [| discriminate].
    apply lookup_seqZ in Hk as [-> Hk]. cbn in Hi. injection Hi as <-.
    rewrite Z.add_0_l.
    assert (Hpos : (0 < c)%Z) by nia.
    destruct (tile_row_major (Z.of_nat i) c _ tw th Hcols ltac:(lia) Hpos)
      as [Hx Hy].
    unfold row_major. fold c. cbn [fst snd index tile].
    repeat split; assumption.
Qed.

Lemma page_push_items_unfold (fuel : nat) (i total cols : Z)
    (tw th : positive) (items : list Item) :
  Page.push_items fuel i total cols tw th items =
  if (i <? total)%Z then
    match fuel with
    | O => None
    | S fuel' =>
        Page.push_items fuel' (i + 1) total cols tw th
          (items ++ [page_tile cols tw th i])
    end
  else Some items.
Proof. destruct fuel; reflexivity. Qed.

Lemma page_push_items_run (total cols : Z) (tw th : positive) (fuel : nat) :
  forall (i : Z) (items : list Item),
    (total - i <= Z.of_nat fuel)%Z ->
    Page.push_items fuel i total cols tw th items
    = Some (items ++ (page_tile cols tw th <$> seqZ i (total - i))).
Proof.
  induction fuel as [| fuel IH]; intros i items Hfuel;
    rewrite page_push_items_unfold;
    destruct (Z.ltb_spec i total) as [E | E].
  - lia.
  - rewrite seqZ_nil by lia. now rewrite app_nil_r.
  - rewrite IH by lia.
    rewrite (seqZ_cons i (total - i)) by lia.
    rewrite fmap_cons, <- app_assoc. cbn [app].
    replace (Z.succ i) with (i + 1)%Z by lia.
    replace (Z.pred (total - i)) with (total - (i + 1))%Z by lia.
    reflexivity.
  - rewrite seqZ_nil by lia. now rewrite app_nil_r.
Qed.

(** The page's manager, which floors the two quotients, lays the tiles
    out as the specification says, for every sheet and tile size. *)
Lemma loadSpriteImage_laid_out (W H : N) (tw th : positive) :
  laid_out W H tw th (Page.onload W H tw th []).
Proof.
  unfold Page.onload, Js.floor. cbv zeta.
  rewrite <- !Zdiv_Qdiv.
  set (c := (Z.of_N W / Zpos tw)%Z). set (r := (Z.of_N H / Zpos th)%Z).
  assert (Hc0 : (0 <= c)%Z) by (unfold c; apply Z.div_pos; lia).
  assert (Hr0 : (0 <= r)%Z) by (unfold r; apply Z.div_pos; lia).
  rewrite page_push_items_run by lia.
  rewrite Z.sub_0_r. cbn [app]. split.
  - rewrite length_fmap, length_seqZ. unfold tile_count. fold c r. nia.
  - intros i t Hi.
    rewrite list_lookup_fmap in Hi.
    destruct (seqZ 0 (r * c) !! i) as [k |] eqn:Hk; [| discriminate].
    apply lookup_seqZ in Hk as [-> Hk]. cbn in Hi. injection Hi as <-.
    rewrite Z.add_0_l.
    assert (Hpos : (0 < c)%Z) by nia.
    unfold row_major, page_tile, Js.floor. fold c. cbn [fst snd index x y].
    rewrite <- Zdiv_Qdiv, Z.rem_mod_nonneg by lia.
    repeat split; reflexivity.
Qed.

(** C1 at a failing input: a sheet of 20 by 16 pixels cut into tiles of
    16 by 16.  The specification counts floor(20/16) x floor(16/16) = 1
    tile.  [_createItems] does not floor the quotient 20/16 = 1.25: its
    loop runs while i < 1.25 and pushes two tiles, the second one at
    x = 16, where only 4 of its 16 columns are inside the sheet.  The
    manager inlined in the page, which floors, pushes the one tile. *)
Theorem C1_createItems_partial_column :
  let tiles := onload 20 16 16 16 _createItems in
  tile_count 20 16 16 16 = 1%Z /\
  length tiles = 2%nat /\
  (exists t, tiles !! 1%nat = Some t /\
     index t = 1%Z /\ (x t == 16)%Q /\ (y t == 0)%Q) /\
  ~ laid_out 20 16 16 16 tiles /\
  Page.onload 20 16 16 16 [] = [mkItem 0 0 0].
Proof.
  cbv zeta. split; [reflexivity |]. split; [reflexivity |]. split.
  - eexists. split; [vm_compute; reflexivity |]. repeat split.
  - split.
    + intros [Hcount _]. vm_compute in Hcount. discriminate.
    + reflexivity.
Qed.

End TileProps.

(** ** Further properties of the sprite manager of builder.js *)

Module SpriteExtras.

Import Sprites SpriteSpec TileSpec ExtraSpec.

Lemma read_own (m : SpriteManager) (t : string) (info : SpriteInfo) :
  own m !! t = Some info -> read m t = VObject info.
Proof. intros H. unfold read. now rewrite H. Qed.

Lemma getSprite_own (m : SpriteManager) (t : string) (info : SpriteInfo)
    (i : Z) (c : option string) :
  own m !! t = Some info ->
  getSprite m (mkRequest t i c) =
  if (i <? Z.of_nat (length (items info)))%Z
  then Normal (Some (sprite_of info (element (items info) i) (default "default" c)))
  else Normal None.
Proof.
  intros H. unfold getSprite. cbn [type item color].
  rewrite (read_own m t info H). reflexivity.
Qed.

Lemma addSprite_own (t path : string) (tw th : positive) (m : SpriteManager) :
  t <> "__proto__" ->
  own (addSprite t path tw th m) !! t = Some (mkSpriteInfo path tw th []).
Proof.
  intros Ht. unfold addSprite.
  destruct (String.eqb_spec t "__proto__") as [E | _]; [contradiction |].
  cbn. apply lookup_insert_eq.
Qed.

(** X1: a registration starts with no tile, also when it replaces a
    loaded one: until the new image has loaded, [getSprite] returns null
    for every index from 0 on. *)
Theorem X1_addSprite_starts_empty (t path : string) (tw th : positive)
    (m : SpriteManager) (i : Z) (c : option string) :
  t <> "__proto__" -> (0 <= i)%Z ->
  getSprite (addSprite t path tw th m) (mkRequest t i c) = Normal None.
Proof.
  intros Ht Hi.
  rewrite (getSprite_own _ t _ i c (addSprite_own t path tw th m Ht)).
  cbn [items length]. destruct (Z.ltb_spec i (Z.of_nat 0)); [lia | reflexivity].
Qed.

Lemma X1_addSprite_starts_empty_witness :
  getSprite (addSprite "grass" "other.png" 8 8 example_manager)
    (mkRequest "grass" 0 None) = Normal None.
Proof.
  apply X1_addSprite_starts_empty; [discriminate | reflexivity].
Defined.

(** X2: a negative index passes the test [item < items.length]: on a
    registered type [getSprite] then returns a sprite, not null, whose
    position is undefined. *)
Theorem X2_getSprite_negative_index (m : SpriteManager) (t : string)
    (info : SpriteInfo) (i : Z) (c : option string) :
  own m !! t = Some info -> (i < 0)%Z ->
  getSprite m (mkRequest t i c)
  = Normal (Some (sprite_of info None (default "default" c))).
Proof.
  intros H Hi. rewrite (getSprite_own m t info i c H).
  destruct (Z.ltb_spec i (Z.of_nat (length (items info)))); [| lia].
  unfold element. destruct (Z.ltb_spec i 0); [reflexivity | lia].
Qed.

Lemma X2_getSprite_negative_index_witness :
  getSprite (addSprite "grass" "grass.png" 16 16 SpriteManager_new)
    (mkRequest "grass" (-1) (Some "red"))
  = Normal (Some (sprite_of (mkSpriteInfo "grass.png" 16 16 []) None "red")).
Proof.
  apply (X2_getSprite_negative_index _ "grass" (mkSpriteInfo "grass.png" 16 16 []));
    [apply addSprite_own; discriminate | reflexivity].
Defined.

Lemma getSprite_at (m : SpriteManager) (t : string)
    (info : SpriteInfo) (i : Z) (c : option string) :
  own m !! t = Some info -> (0 <= i)%Z ->
  getSprite m (mkRequest t i c) =
  match items info !! Z.to_nat i with
  | Some tile => Normal (Some (sprite_of info (Some tile) (default "default" c)))
  | None => Normal None
  end.
Proof.
  intros H Hi. rewrite (getSprite_own m t info i c H).
  unfold element. destruct (Z.ltb_spec i 0); [lia |].
  destruct (Z.ltb_spec i (Z.of_nat (length (items info)))) as [Hlt | Hge].
  - destruct (lookup_lt_is_Some_2 (items info) (Z.to_nat i)) as [tile ->];
      [lia | reflexivity].
  - rewrite lookup_ge_None_2 by lia. reflexivity.
Qed.

(** X3: for an index from 0 on, [getSprite] on a registered type returns
    the tile stored at that index, with the registration's image path and
    the requested colour ("default" when omitted), and null when the index
    is the tile count or more. *)
Theorem X3_getSprite_by_index (m : SpriteManager) (t : string)
    (info : SpriteInfo) (i : Z) (c : option string) :
  own m !! t = Some info -> (0 <= i)%Z ->
  getSprite m (mkRequest t i c) =
  match items info !! Z.to_nat i with
  | Some tile => Normal (Some (sprite_of info (Some tile) (default "default" c)))
  | None => Normal None
  end.
Proof. apply getSprite_at. Qed.

Lemma X3_getSprite_by_index_witness :
  getSprite example_manager (mkRequest "grass" 8 None) = Normal None.
Proof.
  apply (X3_getSprite_by_index example_manager "grass"
           (mkSpriteInfo "path/to/grass.png" 16 16
              (onload 64 32 16 16 [])) 8 None);
    [vm_compute; reflexivity | discriminate].
Defined.

Lemma image_loaded_own (t : string) (W H : N) (m : SpriteManager)
    (info : SpriteInfo) :
  t <> "__proto__" -> own m !! t = Some info ->
  own (image_loaded t W H m) !! t
  = Some (set_items info
            (onload W H (spriteWidth info) (spriteHeight info) (items info))).
Proof.
  intros Ht Hm. unfold image_loaded.
  destruct (String.eqb_spec t "__proto__") as [E | _]; [contradiction |].
  cbn. rewrite lookup_alter. case_decide; [| congruence]. now rewrite Hm.
Qed.

(** X4: register, load, look up.  When the tile size divides the sheet's
    width and height, every index below (W / tw) x (H / th) resolves to
    the tile at column [i mod (W / tw)] and row [i / (W / tw)], in pixels,
    together with the registered image path. *)
Theorem X4_register_load_lookup (t path : string) (tw th : positive)
    (W H : N) (m : SpriteManager) (i : Z) (c : option string) :
  t <> "__proto__" ->
  (Z.of_N W mod Zpos tw = 0)%Z -> (Z.of_N H mod Zpos th = 0)%Z ->
  (0 <= i < tile_count W H tw th)%Z ->
  exists tile,
    getSprite (image_loaded t W H (addSprite t path tw th m)) (mkRequest t i c)
    = Normal (Some {| r_imagePath := VString path;
                      r_position := Some tile;
                      r_color := default "default" c |}) /\
    at_grid W tw th i tile.
Proof.
  intros Ht HW HH Hi.
  pose proof (image_loaded_own t W H _ _ Ht (addSprite_own t path tw th m Ht)) as Hown.
  cbn [spriteWidth spriteHeight items] in Hown.
  rewrite (getSprite_at _ _ _ i c Hown) by lia.
  destruct (TileProps.createItems_exact_sheet W H tw th HW HH) as [Hlen Htiles].
  cbn [items set_items].
  destruct (lookup_lt_is_Some_2 (onload W H tw th []) (Z.to_nat i)) as [tile Htile];
    [lia |].
  rewrite Htile. exists tile. split; [reflexivity |].
  destruct (Htiles _ _ Htile) as (Hidx & Hx & Hy).
  rewrite Z2Nat.id in Hidx, Hx, Hy by lia.
  unfold at_grid. unfold row_major in Hx, Hy. cbn [fst snd] in Hx, Hy. auto.
Qed.

(** The example of the specification: a sheet of 64 by 32 pixels, tiles of
    16 by 16, index 5. *)
Lemma X4_register_load_lookup_witness :
  exists tile,
    getSprite (image_loaded "grass" 64 32
                 (addSprite "grass" "grass.png" 16 16 SpriteManager_new))
      (mkRequest "grass" 5 None)
    = Normal (Some {| r_imagePath := VString "grass.png";
                      r_position := Some tile;
                      r_color := "default" |}) /\
    at_grid 64 16 16 5 tile.
Proof.
  apply (X4_register_load_lookup "grass" "grass.png" 16 16 64 32
           SpriteManager_new 5 None);
    [discriminate | reflexivity | reflexivity | vm_compute; split; congruence].
Defined.

Lemma read_other_addSprite (t t' path : string) (tw th : positive)
    (m : SpriteManager) :
  t' <> t -> t' <> "__proto__" ->
  read (addSprite t' path tw th m) t = read m t.
Proof.
  intros Hne Hp. unfold addSprite.
  destruct (String.eqb_spec t' "__proto__") as [E | _]; [contradiction |].
  unfold read. cbn [own proto]. now rewrite lookup_insert_ne.
Qed.

Lemma read_other_image_loaded (t t' : string) (W H : N) (m : SpriteManager) :
  t' <> t -> t' <> "__proto__" ->
  read (image_loaded t' W H m) t = read m t.
Proof.
  intros Hne Hp. unfold image_loaded.
  destruct (String.eqb_spec t' "__proto__") as [E | _]; [contradiction |].
  unfold read. cbn [own proto]. rewrite lookup_alter.
  case_decide; [congruence | reflexivity].
Qed.

(** X5: registering another type, or the image of another type finishing
    its load, changes no answer of [getSprite] for this type (the other
    type not being "__proto__", which would replace the prototype of the
    registry). *)
Theorem X5_other_types_do_not_interfere (t' path : string) (tw th : positive)
    (W H : N) (m : SpriteManager) (r : Request) :
  t' <> type r -> t' <> "__proto__" ->
  getSprite (addSprite t' path tw th m) r = getSprite m r /\
  getSprite (image_loaded t' W H m) r = getSprite m r.
Proof.
  intros Hne Hp. unfold getSprite.
  rewrite (read_other_addSprite (type r) t' path tw th m Hne Hp).
  rewrite (read_other_image_loaded (type r) t' W H m Hne Hp).
  split; reflexivity.
Qed.

Lemma X5_other_types_do_not_interfere_witness :
  getSprite (addSprite "water" "water.png" 16 16 example_manager)
    (mkRequest "grass" 5 None)
  = getSprite example_manager (mkRequest "grass" 5 None) /\
  getSprite (image_loaded "floor" 16 16 example_manager)
    (mkRequest "grass" 5 None)
  = getSprite example_manager (mkRequest "grass" 5 None).
Proof.
  split.
  - apply (X5_other_types_do_not_interfere "water" "water.png" 16 16 0 0
             example_manager (mkRequest "grass" 5 None));
      intros E; discriminate E.
  - apply (X5_other_types_do_not_interfere "floor" "" 1 1 16 16
             example_manager (mkRequest "grass" 5 None));
      intros E; discriminate E.
Defined.




Lemma colorMap_lookup (color : string) :
  colorMap !! color =
  if decide (color = "red") then Some 0%Z
  else if decide (color = "green") then Some 120%Z
  else if decide (color = "blue") then Some 240%Z
  else None.
Proof.
  unfold colorMap.
  repeat (rewrite lookup_insert; case_decide; subst;
          [repeat case_decide; congruence |]).
  rewrite lookup_empty. repeat case_decide; congruence.
Qed.

(** X7: [getColorRotation] answers 120 for "green", 240 for "blue" and 0
    for every other colour name, known or not, except the property names
    of [Object.prototype] ("constructor", "toString", ...): for those
    [colorMap[color]] is the inherited value, which is truthy, and the
    function returns it instead of a number. *)
Theorem X7_getColorRotation (color : string) :
  getColorRotation "green" = Degrees 120 /\
  getColorRotation "blue" = Degrees 240 /\
  (color <> "green" -> color <> "blue" -> Js.inherited color = false ->
   getColorRotation color = Degrees 0) /\
  (Js.inherited color = true -> getColorRotation color = Inherited color).
Proof.
  split; [reflexivity |]. split; [reflexivity |].
  unfold getColorRotation. rewrite colorMap_lookup. split.
  - intros Hg Hb Hi. repeat case_decide; try congruence; [reflexivity |].
    now rewrite Hi.
  - intros Hi. repeat case_decide; subst; try discriminate Hi. now rewrite Hi.
Qed.

Lemma X7_getColorRotation_witness :
  getColorRotation "purple" = Degrees 0 /\
  getColorRotation "constructor" = Inherited "constructor".
Proof.
  destruct (X7_getColorRotation "purple") as (_ & _ & Hunknown & _).
  destruct (X7_getColorRotation "constructor") as (_ & _ & _ & Hinherited).
  split;
    [apply Hunknown; [discriminate | discriminate | reflexivity]
    | apply Hinherited; reflexivity].
Defined.

End SpriteExtras.

(** ** Further properties of the sprite manager inlined in the page *)

Module PageExtras.

Import Sprites SpriteSpec TileSpec ExtraSpec.

Lemma page_onload_run (W H : N) (tw th : positive) (items : list Item) :
  Page.onload W H tw th items
  = items ++ (page_tile (Z.of_N W / Zpos tw) tw th
                <$> seqZ 0 (Z.of_N H / Zpos th * (Z.of_N W / Zpos tw))).
Proof.
  unfold Page.onload, Js.floor. cbv zeta. rewrite <- !Zdiv_Qdiv.
  assert (0 <= Z.of_N W / Zpos tw)%Z by (apply Z.div_pos; lia).
  assert (0 <= Z.of_N H / Zpos th)%Z by (apply Z.div_pos; lia).
  rewrite TileProps.page_push_items_run by lia.
  now rewrite Z.sub_0_r.
Qed.

Lemma page_onload_app (W H : N) (tw th : positive) (items : list Item) :
  Page.onload W H tw th items = items ++ Page.onload W H tw th [].
Proof. now rewrite (page_onload_run W H tw th items), (page_onload_run W H tw th []). Qed.

Lemma page_getSprite_own (m : SpriteManager) (t : string) (info : SpriteInfo)
    (i : Z) (c : option string) :
  own m !! t = Some info ->
  Page.getSprite m (mkRequest t i c) =
  match element (items info) i with
  | Some tile =>
      Normal (Some (sprite_of info (Some tile) (Page.color_or_default c)))
  | None => Normal None
  end.
Proof.
  intros H. unfold Page.getSprite, read. cbn [type item color]. rewrite H.
  reflexivity.
Qed.

Lemma page_image_loaded_own (t : string) (tw th : positive) (W H : N)
    (m : SpriteManager) (info : SpriteInfo) :
  own m !! t = Some info ->
  Page.image_loaded t tw th W H m
  = ({| own := <[t := set_items info (Page.onload W H tw th (items info))]> (own m);
        proto := proto m |}, Normal tt).
Proof. intros Hm. unfold Page.image_loaded. now rewrite Hm. Qed.

(** X8: register, load, look up, in the page.  For every sheet and tile
    size the load ends normally, and afterwards [getSprite] returns a
    sprite exactly for the indices from 0 to
    floor(W / tw) x floor(H / th) - 1: the tile at column
    [i mod floor(W / tw)] and row [i / floor(W / tw)] with the registered
    path; for every other index, negative ones included, it returns
    null. *)
Theorem X8_page_register_load_lookup (t path : string) (tw th : positive)
    (W H : N) (m : SpriteManager) (i : Z) (c : option string) :
  t <> "__proto__" ->
  let loaded := Page.image_loaded t tw th W H (Page.addSprite t path tw th m) in
  snd loaded = Normal tt /\
  ((0 <= i < tile_count W H tw th)%Z ->
   exists tile,
     Page.getSprite (fst loaded) (mkRequest t i c)
     = Normal (Some {| r_imagePath := VString path;
                       r_position := Some tile;
                       r_color := Page.color_or_default c |}) /\
     at_grid W tw th i tile) /\
  (~ (0 <= i < tile_count W H tw th)%Z ->
   Page.getSprite (fst loaded) (mkRequest t i c) = Normal None).
Proof.
  intros Ht. cbv zeta. unfold Page.addSprite.
  rewrite (page_image_loaded_own t tw th W H _ _
             (SpriteExtras.addSprite_own t path tw th m Ht)).
  cbn [fst snd items]. split; [reflexivity |].
  set (m' := {| own := _; proto := _ |}).
  assert (Hown : own m' !! t
                 = Some (set_items (mkSpriteInfo path tw th [])
                           (Page.onload W H tw th [])))
    by (unfold m'; cbn; apply lookup_insert_eq).
  rewrite (page_getSprite_own m' t _ i c Hown). cbn [items set_items].
  destruct (TileProps.loadSpriteImage_laid_out W H tw th) as [Hlen Htiles].
  unfold element. split.
  - intros Hi. destruct (Z.ltb_spec i 0); [lia |].
    destruct (lookup_lt_is_Some_2 (Page.onload W H tw th []) (Z.to_nat i))
      as [tile Htile]; [lia |].
    rewrite Htile. exists tile. split; [reflexivity |].
    destruct (Htiles _ _ Htile) as (Hidx & Hx & Hy).
    rewrite Z2Nat.id in Hidx, Hx, Hy by lia.
    unfold at_grid. unfold row_major in Hx, Hy. cbn [fst snd] in Hx, Hy. auto.
  - intros Hi. destruct (Z.ltb_spec i 0); [reflexivity |].
    rewrite lookup_ge_None_2 by lia. reflexivity.
Qed.

(** The poll of the page asks for index 1 of "grass": a sheet of 32 by 16
    pixels holds it, at x = 16, y = 0. *)
Lemma X8_page_register_load_lookup_witness :
  exists tile,
    Page.getSprite
      (fst (Page.image_loaded "grass" 16 16 32 16
              (Page.addSprite "grass" "/sprites/grass.png" 16 16 SpriteManager_new)))
      (mkRequest "grass" 1 None)
    = Normal (Some {| r_imagePath := VString "/sprites/grass.png";
                      r_position := Some tile;
                      r_color := "default" |}) /\
    at_grid 32 16 16 1 tile.
Proof.
  destruct (X8_page_register_load_lookup "grass" "/sprites/grass.png" 16 16
              32 16 SpriteManager_new 1 None) as (_ & Hin & _);
    [discriminate |].
  apply Hin. vm_compute. split; congruence.
Defined.

(** X9: the page's [getSprite] never returns a sprite without a tile:
    whatever the registry and the request, a sprite it returns carries the
    tile stored at the requested index, which is not negative. *)
Theorem X9_page_getSprite_has_tile (m : SpriteManager) (r : Request)
    (res : SpriteResult) :
  Page.getSprite m r = Normal (Some res) ->
  (0 <= item r)%Z /\
  exists (l : list Item) (tile : Item),
    items_of (read m (type r)) = VArray l /\
    l !! Z.to_nat (item r) = Some tile /\
    r_position res = Some tile.
Proof.
  unfold Page.getSprite.
  destruct (truthy (read m (type r))); [| discriminate].
  destruct (items_of (read m (type r))) as [| | | l | |]; try discriminate.
  unfold element. destruct (Z.ltb_spec (item r) 0); [discriminate |].
  destruct (l !! Z.to_nat (item r)) as [tile |] eqn:Htile; [| discriminate].
  intros [= <-]. split; [assumption |]. exists l, tile. auto.
Qed.

Lemma X9_page_getSprite_has_tile_witness :
  let m := fst (Page.image_loaded "grass" 16 16 32 16
                  (Page.addSprite "grass" "g.png" 16 16 SpriteManager_new)) in
  (0 <= 1)%Z /\
  exists (l : list Item) (tile : Item),
    items_of (read m "grass") = VArray l /\
    l !! 1%nat = Some tile /\
    Some (mkItem 1 (inject_Z 16) (inject_Z 0)) = Some tile.
Proof.
  cbv zeta.
  apply (X9_page_getSprite_has_tile _ (mkRequest "grass" 1 None)
           {| r_imagePath := VString "g.png";
              r_position := Some (mkItem 1 (inject_Z 16) (inject_Z 0));
              r_color := "default" |}).
  vm_compute. reflexivity.
Defined.

(** X10: the page's load callback pushes to whatever is registered under
    its type when the image arrives.  When a type is registered twice
    before either image has loaded, both callbacks fill the one array of
    the second registration: it ends up with the tiles of the first sheet
    followed by those of the second, each run numbered from 0. *)
Theorem X10_page_double_registration (t path1 path2 : string)
    (tw1 th1 tw2 th2 : positive) (W1 H1 W2 H2 : N) (m : SpriteManager) :
  t <> "__proto__" ->
  let m2 := Page.addSprite t path2 tw2 th2 (Page.addSprite t path1 tw1 th1 m) in
  let m3 := fst (Page.image_loaded t tw1 th1 W1 H1 m2) in
  let m4 := fst (Page.image_loaded t tw2 th2 W2 H2 m3) in
  own m4 !! t
  = Some (mkSpriteInfo path2 tw2 th2
            (Page.onload W1 H1 tw1 th1 [] ++ Page.onload W2 H2 tw2 th2 [])).
Proof.
  intros Ht. cbv zeta. unfold Page.addSprite.
  rewrite (page_image_loaded_own t tw1 th1 W1 H1 _ _
             (SpriteExtras.addSprite_own t path2 tw2 th2 _ Ht)).
  cbn [fst items].
  erewrite page_image_loaded_own by (cbn; apply lookup_insert_eq).
  cbn [fst own items set_items]. rewrite lookup_insert_eq.
  now rewrite (page_onload_app W2 H2 tw2 th2).
Qed.

(** The same image registered twice: the two tiles of a 32 by 16 sheet
    appear twice. *)
Lemma X10_page_double_registration_witness :
  own (fst (Page.image_loaded "grass" 16 16 32 16
         (fst (Page.image_loaded "grass" 16 16 32 16
            (Page.addSprite "grass" "g.png" 16 16
               (Page.addSprite "grass" "g.png" 16 16 SpriteManager_new))))))
    !! "grass"
  = Some (mkSpriteInfo "g.png" 16 16
            (Page.onload 32 16 16 16 [] ++ Page.onload 32 16 16 16 [])).
Proof.
  apply (X10_page_double_registration "grass" "g.png" "g.png" 16 16 16 16
           32 16 32 16 SpriteManager_new).
  discriminate.
Defined.

End PageExtras.

(** ** Further properties of the entities of build.js *)

Module EntityExtras.

Import Game CollisionSpec HitboxSpec ExtraSpec.

(** X11: two entities as their constructors build them (hitboxes of 16
    by 16 at the construction positions) collide exactly when the
    construction positions differ by at most 16 on each axis; a distance
    of exactly 16 still collides. *)
Theorem X11_constructed_entities_collide (p q : Q * Q) (s s' : Sprite) :
  isCollideWith (Entity_new p s) (Entity_new q s') = true <->
  (-16 <= fst p - fst q <= 16 /\ -16 <= snd p - snd q <= 16)%Q.
Proof.
  unfold isCollideWith. rewrite CollisionProps.boxes_collide_spec.
  cbn [Entity_new hitbox hx hy hw hh].
  split; intros H; repeat split; lra.
Qed.

Lemma Entity_update_fields (cw : Q) (e : Entity) :
  vel (Entity_update cw e) = vel e /\
  hitbox (Entity_update cw e) = hitbox e /\
  snd (pos (Entity_update cw e)) = (snd (pos e) + snd (vel e))%Q.
Proof.
  unfold Entity_update. cbv zeta.
  match goal with
  | |- context [checkBounds cw ?e2] =>
      destruct (UpdateProps.checkBounds_frame cw e2) as (-> & -> & _ & _ & _ & ->)
  end.
  cbn. auto.
Qed.

Lemma Entity_update_x (cw : Q) (e : Entity) :
  let x := (fst (pos e) + fst (vel e))%Q in
  let x' := fst (pos (Entity_update cw e)) in
  ((x < 0)%Q -> x' = 0%Q) /\
  ((0 <= x)%Q -> (cw - hw (hitbox e) < x)%Q -> x' = (cw - hw (hitbox e))%Q) /\
  ((0 <= x)%Q -> (x <= cw - hw (hitbox e))%Q -> x' = x).
Proof.
  cbv zeta. unfold Entity_update. cbv zeta.
  match goal with
  | |- context [checkBounds cw ?e2] =>
      pose proof (UpdateProps.checkBounds_x cw e2) as H
  end.
  cbv zeta in H. exact H.
Qed.

Lemma Entity_update_in_canvas (cw : Q) (e : Entity) :
  (0 <= cw - hw (hitbox e))%Q -> in_canvas cw (Entity_update cw e).
Proof.
  intros Hw. unfold in_canvas.
  destruct (Entity_update_fields cw e) as (_ & -> & _).
  destruct (Entity_update_x cw e) as (H1 & H2 & H3). cbv zeta in *.
  destruct (Qlt_le_dec (fst (pos e) + fst (vel e)) 0) as [Hneg | Hpos].
  - rewrite (H1 Hneg). split; lra.
  - destruct (Qlt_le_dec (cw - hw (hitbox e)) (fst (pos e) + fst (vel e)))
      as [Hbig | Hin].
    + rewrite (H2 Hpos Hbig). split; lra.
    + rewrite (H3 Hpos Hin). split; assumption.
Qed.

(** An entity inside the canvas whose horizontal velocity is zero stays at
    its x. *)
Lemma Entity_update_at_rest (cw : Q) (e : Entity) :
  in_canvas cw e -> (fst (vel e) == 0)%Q ->
  (fst (pos (Entity_update cw e)) == fst (pos e))%Q.
Proof.
  intros [Hlo Hhi] Hv.
  destruct (Entity_update_x cw e) as (_ & _ & H3). cbv zeta in H3.
  rewrite H3; lra.
Qed.

(** X12: [checkBounds] is idempotent on a canvas at least as wide as the
    hitbox: an entity it has placed is left where it is by a second
    call. *)
Theorem X12_checkBounds_idempotent (canvas_width : Q) (e : Entity) :
  (0 <= canvas_width - hw (hitbox e))%Q ->
  checkBounds canvas_width (checkBounds canvas_width e)
  = checkBounds canvas_width e.
Proof.
  intros Hw.
  assert (H0 : Js.gt 0 (canvas_width - hw (hitbox e)) = false)
    by now apply JsFacts.gt_false.
  assert (H1 : Js.lt (canvas_width - hw (hitbox e)) 0 = false)
    by now apply JsFacts.lt_false.
  assert (H2 : Js.gt (canvas_width - hw (hitbox e))
                 (canvas_width - hw (hitbox e)) = false)
    by (apply JsFacts.gt_false; lra).
  destruct (Js.lt (fst (pos e)) 0) eqn:Hlt.
  - assert (E : checkBounds canvas_width e = set_pos e (0%Q, snd (pos e)))
      by (unfold checkBounds; now rewrite Hlt).
    rewrite E. unfold checkBounds. cbn [pos hitbox set_pos fst snd].
    change (Js.lt 0 0) with false. cbv iota. now rewrite H0.
  - destruct (Js.gt (fst (pos e)) (canvas_width - hw (hitbox e))) eqn:Hgt.
    + assert (E : checkBounds canvas_width e
                  = set_pos e ((canvas_width - hw (hitbox e))%Q, snd (pos e)))
        by (unfold checkBounds; now rewrite Hlt, Hgt).
      rewrite E. unfold checkBounds. cbn [pos hitbox set_pos fst snd].
      now rewrite H1, H2.
    + assert (E : checkBounds canvas_width e = e)
        by (unfold checkBounds; now rewrite Hlt, Hgt).
      now rewrite !E.
Qed.

Lemma X12_checkBounds_idempotent_witness :
  let e := Entity_new (700, 20)%Q (Sprite_new "e") in
  checkBounds 640 (checkBounds 640 e) = checkBounds 640 e.
Proof.
  cbv zeta. apply X12_checkBounds_idempotent. vm_compute. discriminate.
Defined.

Lemma Player_update_fields (cw : Q) (p : Player) :
  let p' := Player_update cw p in
  pos (p_base p') = pos (Entity_update cw (p_base p)) /\
  hitbox (p_base p') = hitbox (p_base p) /\
  snd (vel (p_base p')) = (snd (vel (p_base p)) + (1 # 2))%Q /\
  (fst (vel (p_base p')) == 0)%Q /\
  health p' = health p /\ invincibility p' = invincibility p.
Proof.
  cbv zeta. unfold Player_update. cbv zeta.
  destruct (Entity_update_fields cw (p_base p)) as (Hv & Hh & _).
  match goal with |- context [if ?c then _ else _] => destruct c eqn:E end;
    cbn [on_base p_base set_vel pos vel hitbox health invincibility fst snd] in *;
    (split; [reflexivity |]); (split; [exact Hh |]);
    (split; [now rewrite Hv |]); (split; [| split; reflexivity]).
  - reflexivity.
  - apply negb_false_iff in E. now apply Qeq_bool_iff in E.
Qed.

Lemma apply_in_canvas (cw : Q) (p : Player) (c : Command) :
  in_canvas cw (p_base p) -> in_canvas cw (p_base (apply cw p c)).
Proof.
  intros Hin. destruct c; cbn [apply]; try exact Hin.
  destruct (Player_update_fields cw p) as (Hp & Hh & _). cbv zeta in *.
  unfold in_canvas. rewrite Hp, Hh.
  destruct (Entity_update_fields cw (p_base p)) as (_ & Hh' & _).
  rewrite <- Hh'. apply Entity_update_in_canvas.
  destruct Hin as [Hlo Hhi]. lra.
Qed.

(** X13: a player whose x lies in [0, canvas.width - hitbox width] keeps it
    there through any sequence of moves, jumps and updates. *)
Theorem X13_player_stays_in_canvas (canvas_width : Q) (cmds : list Command)
    (p : Player) :
  in_canvas canvas_width (p_base p) ->
  in_canvas canvas_width (p_base (fold_left (apply canvas_width) cmds p)).
Proof.
  revert p. induction cmds as [| c cmds IH]; intros p Hin; [exact Hin |].
  cbn [fold_left]. apply IH, apply_in_canvas, Hin.
Qed.

Lemma X13_player_stays_in_canvas_witness :
  in_canvas 640
    (p_base (fold_left (apply 640)
               [MoveLeft; Update; MoveLeft; Update; MoveRight; Jump; Update]
               (Player_new (3, 100)%Q))).
Proof.
  apply X13_player_stays_in_canvas. vm_compute. split; discriminate.
Defined.

(** The number [n] as a JavaScript number. *)
Lemma frames_succ (n : nat) :
  (inject_Z (Z.of_nat (S n)) == inject_Z (Z.of_nat n) + 1)%Q.
Proof. rewrite Nat2Z.inj_succ. unfold Z.succ. now rewrite inject_Z_plus. Qed.

(** X14: nothing stops the fall.  A player built at [p] and updated [n]
    times without a key press has horizontal velocity 0, vertical velocity
    n / 2 and stands at y = p.y + n (n - 1) / 4: the base class clamps x
    only and [Player.update] adds no ground. *)
Theorem X14_player_free_fall (canvas_width : Q) (p : Q * Q) (n : nat) :
  let player := Nat.iter n (Player_update canvas_width) (Player_new p) in
  let t := inject_Z (Z.of_nat n) in
  (fst (vel (p_base player)) == 0)%Q /\
  (snd (vel (p_base player)) == t / 2)%Q /\
  (snd (pos (p_base player)) == snd p + t * (t - 1) / 4)%Q.
Proof.
  cbv zeta. induction n as [| n (IHx & IHv & IHy)].
  - cbn. repeat split; try reflexivity. field.
  - rewrite Nat.iter_succ.
    destruct (Player_update_fields canvas_width
                (Nat.iter n (Player_update canvas_width) (Player_new p)))
      as (Hp & _ & Hv & Hx & _).
    cbv zeta in *.
    destruct (Entity_update_fields canvas_width
                (p_base (Nat.iter n (Player_update canvas_width) (Player_new p))))
      as (_ & _ & Hy).
    rewrite Hp, Hv, Hy, IHv, IHy, frames_succ.
    repeat split; [exact Hx | field | field].
Qed.



Lemma rest_in_place (cw : Q) (p : Q * Q) (e : Entity) :
  (0 <= fst p <= cw - hw (hitbox e))%Q ->
  vel e = (0, 0)%Q -> same_point (pos e) p ->
  vel (Entity_update cw e) = (0, 0)%Q /\ same_point (pos (Entity_update cw e)) p.
Proof.
  intros Hp Hv [Hx Hy].
  destruct (Entity_update_fields cw e) as (Hv' & _ & Hy').
  split; [congruence |]. split.
  - rewrite Entity_update_at_rest.
    + exact Hx.
    + unfold in_canvas. rewrite Hx. exact Hp.
    + rewrite Hv. reflexivity.
  - rewrite Hy', Hv, Hy. cbn. ring.
Qed.

Lemma enemy_stands_still (cw : Q) (p : Q * Q) (n : nat) :
  (0 <= fst p <= cw - 16)%Q ->
  vel (e_base (Nat.iter n (Enemy_update cw) (Enemy_new p))) = (0, 0)%Q /\
  same_point (pos (e_base (Nat.iter n (Enemy_update cw) (Enemy_new p)))) p.
Proof.
  intros Hp. induction n as [| n [IHv IHp]].
  - cbn. repeat split; reflexivity.
  - rewrite Nat.iter_succ. unfold Enemy_update at 1. cbn [e_base].
    apply rest_in_place; try assumption.
    rewrite HitboxProps.Enemy_frames_hitbox. exact Hp.
Qed.

Lemma powerUp_stands_still (cw : Q) (p : Q * Q) (t : string) (n : nat) :
  (0 <= fst p <= cw - 16)%Q ->
  vel (u_base (Nat.iter n (PowerUp_update cw) (PowerUp_new p t))) = (0, 0)%Q /\
  same_point (pos (u_base (Nat.iter n (PowerUp_update cw) (PowerUp_new p t)))) p.
Proof.
  intros Hp. induction n as [| n [IHv IHp]].
  - cbn. repeat split; reflexivity.
  - rewrite Nat.iter_succ. unfold PowerUp_update at 1. cbn [u_base].
    apply rest_in_place; try assumption.
    rewrite HitboxProps.PowerUp_frames_hitbox. exact Hp.
Qed.

(** X16: enemies and power-ups never move.  Nothing sets their velocity,
    so one built inside the canvas is, after any number of updates, still
    at its construction position with velocity (0, 0). *)
Theorem X16_enemies_and_powerUps_stand_still (canvas_width : Q) (p : Q * Q)
    (t : string) (n : nat) :
  (0 <= fst p <= canvas_width - 16)%Q ->
  let enemy := Nat.iter n (Enemy_update canvas_width) (Enemy_new p) in
  let powerUp := Nat.iter n (PowerUp_update canvas_width) (PowerUp_new p t) in
  vel (e_base enemy) = (0, 0)%Q /\ same_point (pos (e_base enemy)) p /\
  vel (u_base powerUp) = (0, 0)%Q /\ same_point (pos (u_base powerUp)) p.
Proof.
  intros Hp. cbv zeta.
  destruct (enemy_stands_still canvas_width p n Hp).
  destruct (powerUp_stands_still canvas_width p t n Hp).
  tauto.
Qed.

Lemma X16_enemies_and_powerUps_stand_still_witness :
  let enemy := Nat.iter 3 (Enemy_update 640) (Enemy_new (200, 80)%Q) in
  let powerUp := Nat.iter 3 (PowerUp_update 640) (PowerUp_new (200, 80)%Q "speed") in
  vel (e_base enemy) = (0, 0)%Q /\ same_point (pos (e_base enemy)) (200, 80)%Q /\
  vel (u_base powerUp) = (0, 0)%Q /\ same_point (pos (u_base powerUp)) (200, 80)%Q.
Proof.
  cbv zeta.
  apply (X16_enemies_and_powerUps_stand_still 640 (200, 80)%Q "speed" 3).
  vm_compute. split; discriminate.
Defined.

End EntityExtras.

(** ** Further properties of the controller of build.js *)

Module ControllerExtras.

Import Game ControllerSpec ExtraSpec.

Ltac run_monad :=
  unfold log, record, update_game, mbind, M_bind, mret, M_ret, get, modify, throw.

(** X17: the enemy check does nothing, and ends normally, when the enemy
    does not overlap the player, when the enemy is dying, or when the
    player is invincible: no notification, no damage, no change of the
    controller. *)
Theorem X17_enemy_check_gates (w : World) (i : nat) (enemy : Enemy) :
  enemies (game w) !! i = Some enemy ->
  isCollideWith (p_base (player (game w))) (e_base enemy) = false \/
  dying (e_base enemy) = true \/
  invincibility (player (game w)) = true ->
  checkPlayerCollisionWithEnemy i w = (w, Normal tt).
Proof.
  intros Hi Hgate. unfold checkPlayerCollisionWithEnemy. run_monad.
  cbv beta iota. rewrite Hi.
  destruct Hgate as [-> | [-> | ->]]; cbn [negb andb];
    rewrite ?andb_false_r; reflexivity.
Qed.

Lemma X17_enemy_check_gates_witness :
  let w := on_game (fun g => set_player (set_invincibility (player g) true) g)
             world_with_enemy in
  checkPlayerCollisionWithEnemy 0 w = (w, Normal tt).
Proof.
  cbv zeta.
  apply (X17_enemy_check_gates _ 0 (Enemy_new (50, 100)%Q));
    [reflexivity | right; right; reflexivity].
Defined.

(** X18: [activate] and its timer.  An "invincibility" power-up makes the
    player invincible and schedules one timeout of 5000 ms; when that
    timeout fires the flag is cleared.  A power-up of any other type
    changes neither the controller nor the timeouts. *)
Theorem X18_invincibility_until_timeout (powerUp : PowerUp) (w : World) :
  let w1 := fst (activate powerUp w) in
  snd (activate powerUp w) = Normal tt /\
  (type powerUp = "invincibility" ->
   invincibility (player (game w1)) = true /\
   timeouts w1 = timeouts w ++ [5000%Q] /\
   (timeouts w = [] ->
    invincibility (player (game (timeout_fired w1))) = false /\
    timeouts (timeout_fired w1) = [])) /\
  (type powerUp <> "invincibility" ->
   game w1 = game w /\ timeouts w1 = timeouts w).
Proof.
  cbv zeta. unfold activate.
  destruct (String.eqb_spec (type powerUp) "speed") as [Es | Es].
  - split; [reflexivity |]. split.
    + intros E. rewrite E in Es. discriminate Es.
    + intros _. split; reflexivity.
  - destruct (String.eqb_spec (type powerUp) "invincibility") as [Ei | Ei].
    + split; [reflexivity |]. split; [| contradiction].
      intros _. run_monad. unfold setTimeout, modify. cbn.
      split; [reflexivity |]. split; [reflexivity |].
      intros ->. cbn. split; reflexivity.
    + split; [reflexivity |]. split; [contradiction |].
      intros _. split; reflexivity.
Qed.

Lemma X18_invincibility_until_timeout_witness :
  let powerUp := PowerUp_new (50, 100)%Q "invincibility" in
  let w1 := fst (activate powerUp DevGameMaker_new) in
  invincibility (player (game w1)) = true /\
  invincibility (player (game (timeout_fired w1))) = false.
Proof.
  cbv zeta.
  destruct (X18_invincibility_until_timeout
              (PowerUp_new (50, 100)%Q "invincibility") DevGameMaker_new)
    as (_ & Hinv & _).
  destruct (Hinv eq_refl) as (Hon & _ & Hoff).
  destruct (Hoff eq_refl) as (Hcleared & _).
  split; assumption.
Defined.

(** X19: a second invincibility power-up does not extend the first.  Each
    activation schedules its own timeout and every timeout clears the one
    flag: after two activations the first timeout to fire ends the
    invincibility while the second is still pending. *)
Theorem X19_invincibility_is_not_extended (p1 p2 : PowerUp) (w : World) :
  type p1 = "invincibility" -> type p2 = "invincibility" ->
  timeouts w = [] ->
  let w2 := fst (activate p2 (fst (activate p1 w))) in
  invincibility (player (game w2)) = true /\
  invincibility (player (game (timeout_fired w2))) = false /\
  timeouts (timeout_fired w2) = [5000%Q].
Proof.
  intros E1 E2 Ht. cbv zeta. unfold activate. rewrite E1, E2.
  change (String.eqb "invincibility" "speed") with false.
  change (String.eqb "invincibility" "invincibility") with true.
  cbv iota. run_monad. unfold setTimeout, modify. cbn. rewrite Ht. cbn.
  repeat split; reflexivity.
Qed.

Lemma X19_invincibility_is_not_extended_witness :
  let p := PowerUp_new (50, 100)%Q "invincibility" in
  let w2 := fst (activate p (fst (activate p DevGameMaker_new))) in
  invincibility (player (game w2)) = true /\
  invincibility (player (game (timeout_fired w2))) = false /\
  timeouts (timeout_fired w2) = [5000%Q].
Proof.
  cbv zeta. apply X19_invincibility_is_not_extended; reflexivity.
Defined.

(** [activate] ends normally and writes the player and the timeouts
    only. *)
Lemma activate_frame (powerUp : PowerUp) (w : World) :
  snd (activate powerUp w) = Normal tt /\
  (powerUps (game (fst (activate powerUp w))) = powerUps (game w) /\
   enemies (game (fst (activate powerUp w))) = enemies (game w) /\
   playerLives (game (fst (activate powerUp w))) = playerLives (game w) /\
   score (game (fst (activate powerUp w))) = score (game w)).
Proof.
  unfold activate.
  destruct (String.eqb (type powerUp) "speed"); [cbn; tauto |].
  destruct (String.eqb (type powerUp) "invincibility"); cbn; tauto.
Qed.

Lemma emit_run (event : string) (w : World) :
  Js.inherited event = false ->
  emit event w
  = ({| game := game w; frames := frames w; timeouts := timeouts w;
        console := console w
                   ++ (Invoked event <$> default [] (eventListeners (game w) !! event)) |},
     Normal tt).
Proof.
  intros Hi. unfold emit. run_monad. cbv beta iota.
  destruct (eventListeners (game w) !! event) as [cbs |]; [reflexivity |].
  rewrite Hi. cbn. rewrite app_nil_r. now destruct w.
Qed.



Lemma filter_elem {A : Type} (f : A -> bool) (l : list A) (a : A) :
  a ∈ List.filter f l <-> a ∈ l /\ f a = true.
Proof. rewrite !list_elem_of_In. apply filter_In. Qed.

Lemma filter_filter {A : Type} (f : A -> bool) (l : list A) :
  List.filter f (List.filter f l) = List.filter f l.
Proof.
  induction l as [| a l IH]; [reflexivity |].
  cbn. destruct (f a) eqn:E; [| exact IH]. cbn. now rewrite E, IH.
Qed.

(** X21: the sweep ends normally, keeps exactly the enemies and power-ups
    whose [isDestroyed] is not true (whatever their [dying]), in their
    order, touches nothing else, and is idempotent. *)
Theorem X21_cleanup_sweep (w : World) :
  let w' := fst (cleanup w) in
  snd (cleanup w) = Normal tt /\
  (forall e, e ∈ enemies (game w') <->
             e ∈ enemies (game w) /\ is_destroyed (e_base e) = false) /\
  (forall u, u ∈ powerUps (game w') <->
             u ∈ powerUps (game w) /\ is_destroyed (u_base u) = false) /\
  enemies (game w') `sublist_of` enemies (game w) /\
  powerUps (game w') `sublist_of` powerUps (game w) /\
  player (game w') = player (game w) /\
  playerLives (game w') = playerLives (game w) /\
  score (game w') = score (game w) /\
  isPaused (game w') = isPaused (game w) /\
  frames w' = frames w /\
  cleanup w' = (w', Normal tt).
Proof.
  cbv zeta. unfold cleanup. run_monad. cbv beta iota.
  cbn [fst snd on_game game enemies powerUps set_enemies set_powerUps player
       playerLives score isPaused frames].
  repeat match goal with |- _ /\ _ => split end; try reflexivity.
  - intros e. rewrite filter_elem, negb_true_iff. reflexivity.
  - intros u. rewrite filter_elem, negb_true_iff. reflexivity.
  - apply ControllerProps.filter_sublist.
  - apply ControllerProps.filter_sublist.
  - unfold on_game, set_powerUps, set_enemies. cbn. now rewrite !filter_filter.
Qed.

(** X22: [restartGame()] never completes.  In every state it resets the
    lives to 3 and the score to 0 and then throws at
    [this.player.setPosition]: the player (position included), the pause
    flag, the enemies, the power-ups and the frame queue are as before,
    and neither the map is reset nor "gameRestarted" emitted. *)
Theorem X22_restartGame_stops_at_setPosition (w : World) :
  let w' := fst (restartGame w) in
  snd (restartGame w) = Throw (Js.TypeError "setPosition is not a function") /\
  playerLives (game w') = 3%Z /\ score (game w') = 0%Z /\
  player (game w') = player (game w) /\
  isPaused (game w') = isPaused (game w) /\
  enemies (game w') = enemies (game w) /\
  powerUps (game w') = powerUps (game w) /\
  eventListeners (game w') = eventListeners (game w) /\
  frames w' = frames w /\ console w' = console w.
Proof. cbv zeta. unfold restartGame. run_monad. cbn. tauto. Qed.



(** X24: an event named like a property of [Object.prototype]
    ("constructor", "toString", ...) can neither be subscribed to nor
    published: [this.eventListeners[event]] is then the inherited value,
    and [on] and [emit] both throw a TypeError and change nothing. *)
Theorem X24_inherited_event_names (event : string) (callback : nat) (w : World) :
  Js.inherited event = true ->
  eventListeners (game w) !! event = None ->
  (exists e, on event callback w = (w, Throw e)) /\
  (exists e, emit event w = (w, Throw e)).
Proof.
  intros Hi Hnone. unfold on, emit. run_monad. cbv beta iota.
  rewrite Hnone, Hi. split; eexists; reflexivity.
Qed.

Lemma X24_inherited_event_names_witness :
  (exists e, on "constructor" 1 DevGameMaker_new = (DevGameMaker_new, Throw e)) /\
  (exists e, emit "constructor" DevGameMaker_new = (DevGameMaker_new, Throw e)).
Proof.
  apply X24_inherited_event_names; reflexivity.
Defined.


Lemma run_app (cw : Q) (a b : list Input) (w : World) :
  run cw (a ++ b) w = run cw b (run cw a w).
Proof. unfold run. apply fold_left_app. Qed.

(** X26: the loop runs one tick at most.  A tick that starts while the
    game is not paused ends in an error before the sweep and before the
    request for the next frame; paused or not, [gameLoop] queues nothing;
    so in every run, once one animation frame has been presented, no
    [gameLoop] callback is pending any more. *)
Theorem X26_no_second_tick (canvas_width : Q) :
  (forall w, isPaused (game w) = false ->
             exists e, snd (gameLoop canvas_width w) = Throw e) /\
  (forall w, frames (fst (gameLoop canvas_width w)) = frames w) /\
  (forall (before after : list Input) (w : World),
      frames (run canvas_width (before ++ AnimationFrame :: after) w) = 0%nat).
Proof.
  split; [| split].
  - intros w Hp. now apply (ControllerProps.gameLoop_stable canvas_width w).
  - intros w. apply (ControllerProps.gameLoop_stable canvas_width w).
  - intros before after w. rewrite run_app.
    change (run canvas_width (AnimationFrame :: after) ?w0)
      with (run canvas_width after (step canvas_width AnimationFrame w0)).
    apply ControllerProps.first_tick_is_last.
    now rewrite ControllerProps.step_frames.
Qed.

Lemma X26_no_second_tick_witness :
  (exists e, snd (gameLoop 640 DevGameMaker_new) = Throw e) /\
  frames (run 640 [AnimationFrame; KeyDown "ArrowRight"; AnimationFrame]
            DevGameMaker_new) = 0%nat.
Proof.
  destruct (X26_no_second_tick 640) as (Hthrow & _ & Hrun).
  split.
  - apply Hthrow. reflexivity.
  - apply (Hrun [] [KeyDown "ArrowRight"; AnimationFrame] DevGameMaker_new).
Defined.

(** The fields a paused controller cannot have changed. *)
Lemma step_frozen (cw : Q) (i : Input) (w : World) :
  isPaused (game w) = true -> frames w = 0%nat ->
  let w' := step cw i w in
  isPaused (game w') = true /\ frames w' = 0%nat /\
  p_base (player (game w')) = p_base (player (game w)) /\
  enemies (game w') = enemies (game w) /\
  powerUps (game w') = powerUps (game w) /\
  playerLives (game w') = playerLives (game w) /\
  score (game w') = score (game w).
Proof.
  intros Hp Hf. cbv zeta. destruct i as [code | |]; cbn [step].
  - unfold run_callback.
    rewrite (ControllerProps.handleKeyPress_paused cw code w Hp). tauto.
  - unfold animation_frame. rewrite Hf. cbn. tauto.
  - unfold timeout_fired. destruct (timeouts w); cbn; tauto.
Qed.

(** X27: all input is ignored while the game is paused.  Once the
    controller is paused and no frame is queued, whatever keys are
    pressed (Escape and KeyR included) and whatever frames and timeouts
    the host delivers, it stays paused with no frame queued, and the
    player's position and velocity, the enemies, the power-ups, the lives
    and the score stay as they are. *)
Theorem X27_paused_controller_is_frozen (canvas_width : Q)
    (inputs : list Input) (w : World) :
  isPaused (game w) = true -> frames w = 0%nat ->
  let w' := run canvas_width inputs w in
  isPaused (game w') = true /\ frames w' = 0%nat /\
  p_base (player (game w')) = p_base (player (game w)) /\
  enemies (game w') = enemies (game w) /\
  powerUps (game w') = powerUps (game w) /\
  playerLives (game w') = playerLives (game w) /\
  score (game w') = score (game w).
Proof.
  cbv zeta. revert w. induction inputs as [| i inputs IH]; intros w Hp Hf.
  - cbn. tauto.
  - change (run canvas_width (i :: inputs) w)
      with (run canvas_width inputs (step canvas_width i w)).
    destruct (step_frozen canvas_width i w Hp Hf)
      as (Hp' & Hf' & Hb & He & Hu & Hl & Hs). cbv zeta in *.
    destruct (IH _ Hp' Hf') as (Hp'' & Hf'' & Hb' & He' & Hu' & Hl' & Hs').
    repeat split; congruence.
Qed.

Lemma X27_paused_controller_is_frozen_witness :
  let w := run 640 [KeyDown "Escape"; AnimationFrame] DevGameMaker_new in
  let w' := run 640 [KeyDown "Escape"; KeyDown "KeyR"; KeyDown "ArrowLeft";
                     AnimationFrame; TimeoutFired] w in
  isPaused (game w') = true /\ frames w' = 0%nat /\
  p_base (player (game w')) = p_base (player (game w)) /\
  enemies (game w') = enemies (game w) /\
  powerUps (game w') = powerUps (game w) /\
  playerLives (game w') = playerLives (game w) /\
  score (game w') = score (game w).
Proof.
  cbv zeta. apply X27_paused_controller_is_frozen; reflexivity.
Defined.

(** X28: keys move nothing by themselves.  Whatever the key, unless it is
    KeyR (restart), [handleKeyPress] leaves the player's position and
    hitbox, the enemies, the power-ups, the lives, the score and the
    frame queue as they are; ArrowLeft, ArrowRight and Space write the
    player's velocity only, to (-5, vy), (5, vy) and (vx, -10). *)
Theorem X28_keys_write_velocity_only (code : string) (w : World) :
  code <> "KeyR" ->
  let w' := fst (handleKeyPress code w) in
  let v := vel (p_base (player (game w))) in
  pos (p_base (player (game w'))) = pos (p_base (player (game w))) /\
  hitbox (p_base (player (game w'))) = hitbox (p_base (player (game w))) /\
  enemies (game w') = enemies (game w) /\
  powerUps (game w') = powerUps (game w) /\
  playerLives (game w') = playerLives (game w) /\
  score (game w') = score (game w) /\
  frames w' = frames w /\
  (isPaused (game w) = false ->
   vel (p_base (player (game w'))) =
     if String.eqb code "ArrowLeft" then ((-5)%Q, snd v)
     else if String.eqb code "ArrowRight" then (5%Q, snd v)
     else if String.eqb code "Space" then (fst v, (-10)%Q)
     else v).
Proof.
  intros Hr. cbv zeta. unfold handleKeyPress.
  unfold mbind, M_bind, get. cbv beta iota.
  destruct (isPaused (game w)) eqn:Hp;
    [cbn; repeat match goal with |- _ /\ _ => split end;
     try reflexivity; intros E; discriminate E |].
  destruct (String.eqb code "ArrowLeft"); [cbn; tauto |].
  destruct (String.eqb code "ArrowRight"); [cbn; tauto |].
  destruct (String.eqb code "Space"); [cbn; tauto |].
  destruct (String.eqb code "KeyF"); [cbn; tauto |].
  destruct (String.eqb code "Escape").
  - unfold togglePause. run_monad. cbv beta iota.
    rewrite (emit_run "pauseToggled" _ eq_refl).
    cbn [fst snd game isPaused set_isPaused on_game].
    destruct (negb (isPaused (game w))); cbn; tauto.
  - destruct (String.eqb_spec code "KeyR"); [contradiction | cbn; tauto].
Qed.

Lemma X28_keys_write_velocity_only_witness :
  let w' := fst (handleKeyPress "ArrowLeft" DevGameMaker_new) in
  pos (p_base (player (game w'))) = (50, 100)%Q /\
  vel (p_base (player (game w'))) = ((-5)%Q, 0%Q).
Proof.
  cbv zeta.
  destruct (X28_keys_write_velocity_only "ArrowLeft" DevGameMaker_new)
    as (Hpos & _ & _ & _ & _ & _ & _ & Hvel); [discriminate |].
  split; [exact Hpos | exact (Hvel eq_refl)].
Defined.

(** *** The lives over a run *)

Lemma lives_kept_refl (w : World) : lives_kept w w.
Proof. unfold lives_kept. auto. Qed.

Lemma lives_kept_trans (w1 w2 w3 : World) :
  lives_kept w1 w2 -> lives_kept w2 w3 -> lives_kept w1 w3.
Proof.
  unfold lives_kept. intros [[Hl | Hl] [Hs | Hs]] [[Hl' | Hl'] [Hs' | Hs']];
    split; first [left; congruence | right; congruence].
Qed.

Lemma lives_kept_same_game (w w' : World) :
  game w' = game w -> lives_kept w w'.
Proof. intros E. unfold lives_kept. rewrite E. auto. Qed.

Lemma keeps_lives_ret {A : Type} (a : A) : keeps_lives (mret a).
Proof. intros w. apply lives_kept_refl. Qed.

Lemma keeps_lives_throw {A : Type} (e : Js.Error) : keeps_lives (@throw World A e).
Proof. intros w. apply lives_kept_refl. Qed.

Lemma keeps_lives_bind {A B : Type} (m : M World A) (f : A -> M World B) :
  keeps_lives m -> (forall a, keeps_lives (f a)) -> keeps_lives (m ≫= f).
Proof.
  intros Hm Hf w. unfold mbind, M_bind.
  specialize (Hm w). destruct (m w) as [w' [a | e]]; cbn [fst] in *.
  - eapply lives_kept_trans; [exact Hm | apply Hf].
  - exact Hm.
Qed.

Lemma keeps_lives_get_bind {B : Type} (f : World -> M World B) :
  (forall w, keeps_lives (f w)) -> keeps_lives (get ≫= f).
Proof.
  intros Hf. apply keeps_lives_bind; [intros w; apply lives_kept_refl | exact Hf].
Qed.

Lemma keeps_lives_forEach (body : nat -> M World unit) (n : nat) :
  (forall j, keeps_lives (body j)) -> keeps_lives (forEach n body).
Proof.
  intros Hb. unfold forEach. generalize 0%nat.
  induction n as [| n IH]; intros i; cbn [forEach_from].
  - apply keeps_lives_ret.
  - apply keeps_lives_bind; [apply Hb | intros _; apply IH].
Qed.

Lemma keeps_lives_update_game (f : DevGameMaker -> DevGameMaker) :
  (forall g, playerLives (f g) = playerLives g) ->
  (forall g, score (f g) = score g) ->
  keeps_lives (update_game f).
Proof.
  intros Hl Hs w. unfold lives_kept, update_game, modify, on_game. cbn.
  rewrite Hl, Hs. auto.
Qed.

Lemma keeps_lives_emit (event : string) : keeps_lives (emit event).
Proof. intros w. apply lives_kept_same_game, ControllerProps.emit_game. Qed.

Lemma keeps_lives_restartGame : keeps_lives restartGame.
Proof.
  intros w. destruct (ControllerProps.restartGame_throws w) as (_ & Hl & Hs & _).
  unfold lives_kept. auto.
Qed.

Lemma keeps_lives_togglePause : keeps_lives togglePause.
Proof.
  intros w. unfold togglePause. run_monad. cbv beta iota.
  rewrite (emit_run "pauseToggled" _ eq_refl).
  cbn [fst snd game isPaused set_isPaused on_game].
  destruct (negb (isPaused (game w))); unfold lives_kept; cbn; auto.
Qed.

Lemma keeps_lives_enemy_check (i : nat) :
  keeps_lives (checkPlayerCollisionWithEnemy i).
Proof.
  intros w. apply lives_kept_same_game, ControllerProps.enemy_check_keeps_game.
Qed.

Lemma keeps_lives_powerUp_check (i : nat) :
  keeps_lives (checkPlayerCollisionWithPowerUp i).
Proof.
  intros w. unfold checkPlayerCollisionWithPowerUp.
  unfold mbind, M_bind, get. cbv beta iota.
  destruct (powerUps (game w) !! i) as [powerUp |]; [| apply lives_kept_refl].
  destruct (isCollideWith _ _); [| apply lives_kept_refl].
  rewrite (emit_run "playerPowerUp" w eq_refl).
  match goal with
  | |- context [activate powerUp ?w1] =>
      destruct (activate_frame powerUp w1) as (Hn & _ & _ & Hl & Hs);
      destruct (activate powerUp w1) as [w2 c2]
  end.
  cbn [fst snd] in *. subst c2. unfold on_powerUp.
  destruct (destroy CPowerUp (u_base powerUp)) as [e' c].
  unfold lives_kept. cbn. rewrite Hl, Hs. cbn. auto.
Qed.

Lemma keeps_lives_handleCollisions : keeps_lives handleCollisions.
Proof.
  unfold handleCollisions.
  apply keeps_lives_get_bind; intros w.
  apply keeps_lives_bind;
    [apply keeps_lives_forEach, keeps_lives_enemy_check | intros _].
  apply keeps_lives_get_bind; intros w'.
  apply keeps_lives_forEach, keeps_lives_powerUp_check.
Qed.

Lemma keeps_lives_updateEntities (cw : Q) : keeps_lives (updateEntities cw).
Proof.
  unfold updateEntities.
  repeat (apply keeps_lives_bind; [| intros _]);
    apply keeps_lives_update_game; reflexivity.
Qed.

Lemma keeps_lives_gameLoop (cw : Q) : keeps_lives (gameLoop cw).
Proof.
  unfold gameLoop. apply keeps_lives_get_bind; intros w.
  destruct (isPaused (game w)); [apply keeps_lives_ret |].
  apply keeps_lives_bind; [apply keeps_lives_updateEntities | intros _].
  apply keeps_lives_bind; [apply keeps_lives_handleCollisions | intros _].
  intros w1. unfold mbind, M_bind.
  rewrite ControllerProps.renderEntities_throws. apply lives_kept_refl.
Qed.

Lemma keeps_lives_handleKeyPress (code : string) :
  keeps_lives (handleKeyPress code).
Proof.
  unfold handleKeyPress. apply keeps_lives_get_bind; intros w.
  destruct (isPaused (game w)); [apply keeps_lives_ret |].
  repeat match goal with
         | |- keeps_lives (if ?c then _ else _) => destruct c
         end;
    auto using keeps_lives_ret, keeps_lives_togglePause, keeps_lives_restartGame;
    try (apply keeps_lives_update_game; reflexivity).
  intros w0. apply lives_kept_same_game. reflexivity.
Qed.

Lemma run_callback_keeps_lives (m : M World unit) (w : World) :
  keeps_lives m -> lives_kept w (run_callback m w).
Proof.
  intros Hm. unfold run_callback. specialize (Hm w).
  destruct (m w) as [w' [[] | e]]; exact Hm.
Qed.

Lemma iter_gameLoop_keeps_lives (cw : Q) (n : nat) (w : World) :
  lives_kept w (Nat.iter n (run_callback (gameLoop cw)) w).
Proof.
  induction n as [| n IH]; [apply lives_kept_refl |].
  rewrite Nat.iter_succ. eapply lives_kept_trans; [exact IH |].
  apply run_callback_keeps_lives, keeps_lives_gameLoop.
Qed.

Lemma step_keeps_lives (cw : Q) (i : Input) (w : World) :
  lives_kept w (step cw i w).
Proof.
  destruct i as [code | |]; cbn [step].
  - apply run_callback_keeps_lives, keeps_lives_handleKeyPress.
  - unfold animation_frame.
    eapply lives_kept_trans; [| apply iter_gameLoop_keeps_lives].
    apply lives_kept_same_game. reflexivity.
  - unfold timeout_fired. destruct (timeouts w); unfold lives_kept; cbn; auto.
Qed.

(** X29: no run takes a life or scores a point.  Whatever the keys, frames
    and timeouts, the lives are what they were at the start or the 3 a
    restart writes, and the score is what it was or the 0 a restart
    writes: the decrement in the enemy check sits behind a call that
    throws, and no code adds to the score. *)
Theorem X29_lives_and_score_over_runs (canvas_width : Q)
    (inputs : list Input) (w : World) :
  let w' := run canvas_width inputs w in
  (playerLives (game w') = playerLives (game w) \/ playerLives (game w') = 3%Z) /\
  (score (game w') = score (game w) \/ score (game w') = 0%Z).
Proof.
  cbv zeta. change (lives_kept w (run canvas_width inputs w)).
  revert w. induction inputs as [| i inputs IH]; intros w.
  - apply lives_kept_refl.
  - change (run canvas_width (i :: inputs) w)
      with (run canvas_width inputs (step canvas_width i w)).
    eapply lives_kept_trans; [apply step_keeps_lives | apply IH].
Qed.

End ControllerExtras.
